(** * cold-compress, [model.py]: the KV-cache controller of the transformer

    A shallow embedding of the cache-facing part of [model.py]:
    [find_multiple], [ModelArgs.__post_init__], the [Transformer] queries
    ([reset_caches], [prompt_cache_overflow], [get_cache_stats],
    [min_cache_length]) and [Attention.compress_prompt] / [Attention.forward].

    Conventions.
    - Python [int] is [Z]; [%] and [//] are [Z.modulo] and [Z.div], which round
      like Python's (floor, remainder with the sign of the divisor).  A zero
      divisor raises [ZeroDivisionError]; raising is [None].
    - Python [dict] with string keys is [gmap string _]; [for k, v in d.items()]
      is [map_fold].  Numbers stored in the statistics dictionaries are exact
      rationals [Qc].
    - [model.py] imports the cache ([cache.py]), the prompt compressors
      ([prompt_compression.py]) and the attention kernel
      ([attention_utils.py]); here they are an interface, and the results on
      [model.py] hold for every implementation of it. *)

From Stdlib Require Import ZArith QArith Qcanon Ascii.
From stdpp Require Import base numbers option list strings pretty gmap fin_maps
  sorting.

Local Open Scope Z_scope.

(** ** [find_multiple] *)

Definition find_multiple (n k : Z) : option Z :=
  if decide (k = 0) then None
  else if decide (n `mod` k = 0) then Some n
  else Some (n + k - n `mod` k).

(** ** [ModelArgs] *)

Module ModelArgs.

(** The dataclass fields.  [intermediate_size] defaults to [None];
    [rope_scaling], an optional dictionary that [__post_init__] never
    touches, is left out. *)
Record t := mk {
  block_size : Z;
  vocab_size : Z;
  n_layer : Z;
  n_head : Z;
  dim : Z;
  intermediate_size : option Z;
  n_local_heads : Z;
  head_dim : Z;
  rope_base : Qc;
  norm_eps : Qc;
  attention_bias : bool;
  max_length : Z;
}.

Definition set_n_local_heads (v : Z) (a : t) : t :=
  mk (block_size a) (vocab_size a) (n_layer a) (n_head a) (dim a)
     (intermediate_size a) v (head_dim a) (rope_base a) (norm_eps a)
     (attention_bias a) (max_length a).

Definition set_intermediate_size (v : option Z) (a : t) : t :=
  mk (block_size a) (vocab_size a) (n_layer a) (n_head a) (dim a)
     v (n_local_heads a) (head_dim a) (rope_base a) (norm_eps a)
     (attention_bias a) (max_length a).

Definition set_head_dim (v : Z) (a : t) : t :=
  mk (block_size a) (vocab_size a) (n_layer a) (n_head a) (dim a)
     (intermediate_size a) (n_local_heads a) v (rope_base a) (norm_eps a)
     (attention_bias a) (max_length a).

(** [int(2 * hidden_dim / 3)]: a true division followed by truncation
    towards zero, [Z.quot] on the exact quotient (the float quotient agrees
    with it for every dimension below 2^50). *)
Definition n_hidden_of (a : t) : Z :=
  let hidden_dim := 4 * dim a in
  Z.quot (2 * hidden_dim) 3.

(** [__post_init__], run on the field values the caller supplied. *)
Definition post_init (a : t) : option t :=
  let a1 :=
    if decide (n_local_heads a = -1) then set_n_local_heads (n_head a) a
    else a in
  a2 ← match intermediate_size a1 with
       | None =>
           m ← find_multiple (n_hidden_of a1) 256;
           Some (set_intermediate_size (Some m) a1)
       | Some _ => Some a1
       end;
  if decide (n_head a2 = 0) then None
  else Some (set_head_dim (dim a2 `div` n_head a2) a2).

(** The defaults of the dataclass and two entries of [transformer_configs]. *)
Definition default : t :=
  mk 4000 32000 32 32 4096 None (-1) 64 (Qc_of_Z 10000)
     (Q2Qc (1 # 100000)) false 4096.

Definition stories15M : t :=
  mk 4000 32000 6 6 288 None (-1) 64 (Qc_of_Z 10000)
     (Q2Qc (1 # 100000)) false 4096.

Definition mistral_7B : t :=
  mk 4000 32000 32 32 4096 (Some 14336) 8 64 (Qc_of_Z 10000)
     (Q2Qc (1 # 100000)) false 4096.

End ModelArgs.

(** ** Tensors

    A tensor is a nested list, outermost dimension first: dimension 0 is the
    batch, dimension 1 the heads. *)

Abbreviation tensor := (list (list (list (list Qc)))) (only parsing).
Abbreviation btensor := (list (list (list (list bool)))) (only parsing).
Abbreviation acts := (list (list (list Qc))) (only parsing).
Abbreviation token_ids := (list (list Z)) (only parsing).

(** Every head repeated [r] times in place: [[a; b]] becomes
    [[a; a; b; b]] for [r = 2]. *)
Definition expand_heads {A} (r : nat) (t : list (list A)) : list (list A) :=
  (λ heads, heads ≫= replicate r) <$> t.

(** [t.repeat_interleave(r, dim=1)]; a negative repeat count raises. *)
Definition repeat_interleave {A} (r : Z) (t : list (list A))
  : option (list (list A)) :=
  if decide (r < 0) then None else Some (expand_heads (Z.to_nat r) t).

(** [a // b] *)
Definition floordiv (a b : Z) : option Z :=
  if decide (b = 0) then None else Some (a `div` b).

(** ** The collaborators of [model.py]

    The key/value cache of one layer ([cache.py]).  [max_cache_length] is an
    attribute; the methods are state passing: they take the cache and return
    it.  [compute_statistics] returns a fresh dictionary. *)
Class KVCache (C : Type) := {
  max_cache_length : C → Z;
  return_attn : C → bool;
  reset : C → C;
  compute_statistics : Z → C → gmap string Qc * C;
  update_kv : list Z → tensor → tensor → bool → token_ids → C
              → (tensor * tensor * btensor) * C;
  update_state : list Z → tensor → tensor → bool → option tensor → token_ids
                 → C → C;
}.

(** The numeric kernels around the cache calls of [Attention.forward]:
    the projection prologue (lines 379 to 393: [wqkv], [split], [view],
    [apply_rotary_emb], [transpose]), the two halves of the attention kernel,
    the mean over the grouped queries (lines 422 to 424) and the output
    epilogue (lines 435 to 437). *)
Class Numerics := {
  project_qkv : acts → tensor → tensor * tensor * tensor;
  attn_output : tensor → tensor → tensor → option btensor → Qc → tensor;
  attn_weights : tensor → tensor → tensor → option btensor → Qc → tensor;
  group_mean : Z → Z → Z → Z → tensor → tensor;
  out_proj : tensor → acts;
}.

(** Modelled from the spec: [attention_utils.scaled_dot_product_attention] is
    missing.  The numeric layer checks the capability flag to decide whether to
    compute and return the weight matrix at all: with the flag it returns the
    weighted output and the weights, without it the output and [None]. *)
Definition scaled_dot_product_attention `{Numerics}
    (q k v : tensor) (attn_mask : option btensor) (attn_top_k : Qc)
    (return_attn : bool) : tensor * option tensor :=
  (attn_output q k v attn_mask attn_top_k,
   if return_attn then Some (attn_weights q k v attn_mask attn_top_k)
   else None).

(** What a prompt compressor returns: positions, keys, values, attention. *)
Definition compressed := (list Z * tensor * tensor * option tensor)%type.
Definition compressor := list Z → tensor → tensor → option tensor → compressed.

(** The characters of a string, and the decimal digits. *)
Definition chars : string → list ascii := String.list_ascii_of_string.
Definition digit (c : ascii) : Prop := c ∈ chars "0123456789".

(** ** [Transformer]: the cache queries

    The state of a model, as far as the cache subsystem goes, is the list of
    its layers' caches ([layer.attention.kv_cache] for [layer] in
    [self.layers]), after [setup_caches] has created them. *)

Section transformer.
Context {C : Type} `{KVCache C}.

Definition reset_caches (layers : list C) : list C :=
  reset <$> layers.

Definition prompt_cache_overflow (prompt_length : Z) (layers : list C)
  : list bool * list C :=
  ((λ layer, bool_decide (prompt_length > max_cache_length layer)) <$> layers,
   layers).

(** [min] of the empty list raises [ValueError]. *)
Definition min_cache_length (layers : list C) : option Z * list C :=
  (match max_cache_length <$> layers with
   | [] => None
   | x :: xs => Some (foldl Z.min x xs)
   end,
   layers).

(** [f"{k}_{layer_idx}"] and [f"{k}_avg"] *)
Definition layer_key (k : string) (layer_idx : nat) : string :=
  k +:+ "_" +:+ pretty layer_idx.
Definition avg_key (k : string) : string := k +:+ "_avg".

(** [sum(v)] and [sum(v) / len(v)].  [avgs] only holds lists that were
    appended to, so the divisor is never zero. *)
Definition py_sum (v : list Qc) : Qc := foldl Qcplus 0%Qc v.
Definition py_mean (v : list Qc) : Qc :=
  (py_sum v / Qc_of_Z (Z.of_nat (length v)))%Qc.

(** The accumulators of [get_cache_stats]: [mem_total], [stats], [avgs]. *)
Record stats_acc := mk_acc {
  mem_total : Qc;
  stats : gmap string Qc;
  avgs : gmap string (list Qc);
}.

(** One turn of the inner loop, lines 262 and 263; [avgs] is a
    [defaultdict(list)]. *)
Definition record_stat (layer_idx : nat) (k : string) (v : Qc)
    (acc : stats_acc) : stats_acc :=
  mk_acc (mem_total acc)
         (<[layer_key k layer_idx := v]> (stats acc))
         (<[k := default [] (avgs acc !! k) ++ [v]]> (avgs acc)).

(** The body of the outer loop on an already computed [stat]: the [pop]
    (which raises [KeyError] if the key is absent) and the inner loop. *)
Definition record_layer (layer_idx : nat) (stat : gmap string Qc)
    (acc : stats_acc) : option stats_acc :=
  mem ← stat !! "cache_memory_gb";
  let stat := delete "cache_memory_gb" stat in
  Some (map_fold (record_stat layer_idx)
          (mk_acc (mem_total acc + mem)%Qc (stats acc) (avgs acc)) stat).

(** Lines 256 to 263.  The caches already visited keep what
    [compute_statistics] made of them, also when a later layer raises. *)
Fixpoint stats_loop (final_seq_len : Z) (layer_idx : nat) (layers : list C)
    (acc : stats_acc) : option stats_acc * list C :=
  match layers with
  | [] => (Some acc, [])
  | layer :: rest =>
      let r := compute_statistics final_seq_len layer in
      match record_layer layer_idx r.1 acc with
      | None => (None, r.2 :: rest)
      | Some acc' =>
          let rr := stats_loop final_seq_len (S layer_idx) rest acc' in
          (rr.1, r.2 :: rr.2)
      end
  end.

(** Lines 265 to 268. *)
Definition finish_stats (acc : stats_acc) : gmap string Qc :=
  <["cache_memory_gb" := mem_total acc]>
    (map_fold (λ k v st, <[avg_key k := py_mean v]> st)
              (stats acc) (avgs acc)).

Definition get_cache_stats (prompt_len gen_len : Z) (layers : list C)
  : option (gmap string Qc) * list C :=
  let final_seq_len := prompt_len + gen_len in
  let r := stats_loop final_seq_len 0 layers (mk_acc 0%Qc ∅ ∅) in
  (finish_stats <$> r.1, r.2).

(** What a layer reports, what is left of it after the [pop], and the
    values of one statistic over the layers that report it. *)
Definition layer_statistics (n : Z) (layer : C) : gmap string Qc :=
  (compute_statistics n layer).1.
Definition reported (n : Z) (layer : C) : gmap string Qc :=
  delete "cache_memory_gb" (layer_statistics n layer).
Definition column (n : Z) (layers : list C) (k : string) : list Qc :=
  omap (λ layer, reported n layer !! k) layers.
Definition memory_column (n : Z) (layers : list C) : list Qc :=
  omap (λ layer, layer_statistics n layer !! "cache_memory_gb") layers.

(** Every statistic a layer reports shows up under that layer's key and
    has an averaged entry. *)
Definition exposes_all (n : Z) (layers : list C) (st : gmap string Qc)
  : Prop :=
  ∀ i layer k v,
    layers !! i = Some layer →
    layer_statistics n layer !! k = Some v →
    st !! layer_key k i = Some v ∧ is_Some (st !! avg_key k).

End transformer.

(** ** [Attention]: prompt compression and the forward step

    A forward step runs against the layer's cache, which it updates, and calls
    four collaborators.  The calls are recorded, with their arguments, in the
    order in which they are made. *)

Inductive Event :=
  | EvUpdateKV (input_pos : list Z) (k v : tensor) (is_prefill : bool)
               (input_ids : token_ids)
  | EvAttention (q k v : tensor) (attn_mask : option btensor)
                (attn_top_k : Qc) (return_attn : bool)
  | EvCompress (input_pos : list Z) (k v : tensor) (attn : option tensor)
  | EvUpdateState (input_pos : list Z) (k v : tensor) (is_prefill : bool)
                  (attn : option tensor) (input_ids : token_ids).

Definition is_update_kv (e : Event) : bool :=
  match e with EvUpdateKV _ _ _ _ _ => true | _ => false end.
Definition is_attention (e : Event) : bool :=
  match e with EvAttention _ _ _ _ _ _ => true | _ => false end.
Definition is_compress (e : Event) : bool :=
  match e with EvCompress _ _ _ _ => true | _ => false end.
Definition is_update_state (e : Event) : bool :=
  match e with EvUpdateState _ _ _ _ _ _ => true | _ => false end.

(** The attention weights a call hands over, if it hands over any. *)
Definition attn_of (e : Event) : option (list (list (list (list Qc)))) :=
  match e with
  | EvCompress _ _ _ attn => attn
  | EvUpdateState _ _ _ _ attn _ => attn
  | _ => None
  end.

(** A mask stays within a validity mask when it has its shape and is true
    only where the validity mask is. *)
Fixpoint all2 {A B} (f : A → B → bool) (l1 : list A) (l2 : list B) : bool :=
  match l1, l2 with
  | [], [] => true
  | a :: l1, b :: l2 => f a b && all2 f l1 l2
  | _, _ => false
  end.

Definition mask_within (m valid : btensor) : bool :=
  all2 (all2 (all2 (all2 implb))) m valid.

(** Every attention call of a trace runs under a mask within [valid]. *)
Definition attends_under (valid : btensor) (tr : list Event) : Prop :=
  ∀ q k v m top ra,
    EvAttention q k v m top ra ∈ tr →
    ∃ am, m = Some am ∧ mask_within am valid = true.

(** A computation on the cache [C]: its result ([None] when it raised), the
    cache it leaves and the calls it made. *)
Definition M (C A : Type) : Type := C → option A * C * list Event.

Global Instance M_ret {C} : MRet (M C) := λ A a c, (Some a, c, []).
Global Instance M_bind {C} : MBind (M C) := λ A B f m c,
  match m c with
  | (None, c1, t1) => (None, c1, t1)
  | (Some a, c1, t1) =>
      match f a c1 with
      | (b, c2, t2) => (b, c2, t1 ++ t2)
      end
  end.

Definition lift {C A} (o : option A) : M C A := λ c, (o, c, []).
Definition gets {C A} (f : C → A) : M C A := λ c, (Some (f c), c, []).

Definition result {C A} (r : option A * C * list Event) : option A := r.1.1.
Definition cache_after {C A} (r : option A * C * list Event) : C := r.1.2.
Definition calls {C A} (r : option A * C * list Event) : list Event := r.2.

Module Attention.

(** The fields of the module that the forward step reads; [kv_cache] is
    the state the step runs against. *)
Record t := mk {
  n_head : Z;
  head_dim : Z;
  n_local_heads : Z;
  dim : Z;
  prompt_compressor : compressor;
}.

Section methods.
Context {C : Type} `{KVCache C} `{Numerics}.

Definition call_update_kv (input_pos : list Z) (k v : tensor)
    (is_prefill : bool) (input_ids : token_ids)
  : M C (tensor * tensor * btensor) := λ c,
  let r := update_kv input_pos k v is_prefill input_ids c in
  (Some r.1, r.2, [EvUpdateKV input_pos k v is_prefill input_ids]).

Definition call_update_state (input_pos : list Z) (k v : tensor)
    (is_prefill : bool) (attn : option tensor) (input_ids : token_ids)
  : M C () := λ c,
  (Some (), update_state input_pos k v is_prefill attn input_ids c,
   [EvUpdateState input_pos k v is_prefill attn input_ids]).

Definition call_attention (q k v : tensor) (attn_mask : option btensor)
    (attn_top_k : Qc) (return_attn : bool)
  : M C (tensor * option tensor) := λ c,
  (Some (scaled_dot_product_attention q k v attn_mask attn_top_k
           return_attn),
   c, [EvAttention q k v attn_mask attn_top_k return_attn]).

Definition call_compressor (self : t) (input_pos : list Z)
    (k v : tensor) (attn : option tensor) : M C compressed := λ c,
  (Some (prompt_compressor self input_pos k v attn), c,
   [EvCompress input_pos k v attn]).

(** [self.n_head // self.n_local_heads] *)
Definition n_rep (self : t) : M C Z :=
  lift (floordiv (n_head self) (n_local_heads self)).

Definition compress_prompt (self : t) (input_pos : list Z)
    (k_val v_val : tensor) (attn : option tensor) : M C compressed :=
  let seq_len := Z.of_nat (length input_pos) in
  cap ← gets max_cache_length;
  if decide (cap < seq_len) then
    call_compressor self input_pos k_val v_val attn
  else mret (input_pos, k_val, v_val, attn).

(** The number of query heads per key/value head, once the division and
    the repetition are known not to raise. *)
Definition group (self : t) : nat :=
  Z.to_nat (n_head self `div` n_local_heads self).

Definition groups_ok (self : t) : Prop :=
  n_local_heads self ≠ 0 ∧ 0 ≤ n_head self `div` n_local_heads self.

(** Lines 419 to 424 on the weights the kernel returned. *)
Definition pooled (self : t) (x : acts) (w : option tensor)
  : option tensor :=
  group_mean (Z.of_nat (length x)) (n_local_heads self)
             (n_head self `div` n_local_heads self)
             (Z.of_nat (length (default [] (head x))))
    <$> w.

(** What [compress_prompt] returns: the compressor's answer on overflow,
    its own arguments otherwise. *)
Definition compress_out (self : t) (input_pos : list Z) (k v : tensor)
    (attn : option tensor) (c : C) : compressed :=
  if bool_decide (max_cache_length c < Z.of_nat (length input_pos))
  then prompt_compressor self input_pos k v attn
  else (input_pos, k, v, attn).

Definition forward (self : t) (x : acts) (input_ids : token_ids)
    (freqs_cis : tensor) (mask : option btensor) (is_prefill : bool)
    (input_pos : list Z) (attn_top_k : Qc) : M C acts :=
  let bsz := Z.of_nat (length x) in
  let seqlen := Z.of_nat (length (default [] (head x))) in
  let qkv := project_qkv x freqs_cis in
  let q := qkv.1.1 in
  let k := qkv.1.2 in
  let v := qkv.2 in
  kvm ← (if negb is_prefill then
           r ← call_update_kv input_pos k v is_prefill input_ids;
           g ← n_rep self;
           kv_mask ← lift (repeat_interleave g r.2);
           mret (r.1.1, r.1.2, Some kv_mask)
         else mret (k, v, None));
  let k := kvm.1.1 in
  let v := kvm.1.2 in
  let kv_mask : option btensor := kvm.2 in
  g ← n_rep self;
  k_rep ← lift (repeat_interleave g k);
  g ← n_rep self;
  v_rep ← lift (repeat_interleave g v);
  ra ← gets return_attn;
  ya ← call_attention q k_rep v_rep
          (match mask with None => kv_mask | Some m => Some m end)
          attn_top_k ra;
  let y := ya.1 in
  attn ← match ya.2 with
         | Some w =>
             g ← n_rep self;
             mret (Some (group_mean bsz (n_local_heads self) g seqlen w))
         | None => mret None
         end;
  pkva ← (if is_prefill then
            c ← compress_prompt self input_pos k v attn;
            _ ← call_update_kv c.1.1.1 c.1.1.2 c.1.2 is_prefill input_ids;
            mret c
          else mret (input_pos, k, v, attn));
  _ ← call_update_state pkva.1.1.1 pkva.1.1.2 pkva.1.2 is_prefill pkva.2
         input_ids;
  mret (out_proj y).

End methods.

End Attention.

(** ** A slot store

    The cache of the design document: a fixed number of slots with a validity
    mask, a configuration that is never changed, and the auxiliary state of
    the eviction policy. *)

Module SlotStore.

(** Modelled from the spec: [cache.py] is missing.  Two of the admission
    rules of section 4.2, full retention and the sliding window. *)
Inductive Strategy := FullRetention | SlidingWindow.

(** Modelled from the spec: [cache.py] is missing.  The configuration of
    section 3, with what the footprint of section 4.5 needs (size of an entry,
    number of heads) and the capability flag of section 6. *)
Record CacheConfig := mk_config {
  capacity : nat;
  recent_window : nat;
  head_count : nat;
  entry_size : Qc;
  strategy : Strategy;
  needs_attention_weights : bool;
}.

(** Modelled from the spec: [cache.py] is missing.  One entry (section 3);
    the key and the value hold one vector per head. *)
Record CacheEntry := mk_entry {
  position : Z;
  key : list (list Qc);
  value : list (list Qc);
  score : Qc;
  pinned : bool;
  order : nat;
}.

(** Modelled from the spec: [cache.py] is missing.  The store (section 3):
    the slots, the validity mask, and the counters of the policy. *)
Record t := mk {
  config : CacheConfig;
  slots : list CacheEntry;
  mask : list bool;
  admissions : nat;
  evictions : nat;
}.

(** Modelled from the spec: [cache.py] is missing.  The placeholder of an
    unused slot, and the store just after construction. *)
Definition blank : CacheEntry := mk_entry 0 [] [] 0%Qc false 0.

Definition empty (cfg : CacheConfig) : t :=
  mk cfg (replicate (capacity cfg) blank) (replicate (capacity cfg) false)
     0 0.

(** Modelled from the spec: [cache.py] is missing.  [reset()] clears all
    slots, the validity mask and the auxiliary state of the policy
    (section 4.4). *)
Definition reset (st : t) : t := empty (config st).

(** Modelled from the spec: [cache.py] is missing.  The number of occupied
    slots. *)
Definition occupancy (st : t) : nat :=
  length (filter (λ b, b = true) (mask st)).

(** Modelled from the spec: [cache.py] is missing.  [admit(entry,
    slot_index)] overwrites the slot and marks it valid (section 4.1). *)
Definition occupy (e : CacheEntry) (i : nat) (st : t) : t :=
  mk (config st) (<[i := e]> (slots st)) (<[i := true]> (mask st))
     (S (admissions st)) (evictions st).

(** Modelled from the spec: [cache.py] is missing.  The next free slot. *)
Definition free_slot (st : t) : option nat :=
  fst <$> list_find (λ b, b = false) (mask st).

(** Modelled from the spec: [cache.py] is missing.  The oldest unpinned valid
    slot: the least insertion order, the first such slot on a tie. *)
Fixpoint oldest_from (i : nat) (es : list CacheEntry) (ms : list bool)
    (best : option (nat * nat)) : option (nat * nat) :=
  match es, ms with
  | e :: es', m :: ms' =>
      let best' :=
        if m && negb (pinned e) then
          match best with
          | Some (_, o) =>
              if decide (order e < o)%nat then Some (i, order e) else best
          | None => Some (i, order e)
          end
        else best in
      oldest_from (S i) es' ms' best'
  | _, _ => best
  end.

(** Modelled from the spec: [cache.py] is missing.  The victim a full store
    gives up: none under full retention, the oldest under the sliding
    window. *)
Definition victim (st : t) : option nat :=
  match strategy (config st) with
  | FullRetention => None
  | SlidingWindow => fst <$> oldest_from 0 (slots st) (mask st) None
  end.

(** Modelled from the spec: [cache.py] is missing.  [admit_one]
    (section 4.4): into the next free slot while there is one; then the policy
    names a victim, or the entry is dropped. *)
Definition accept_one (st : t) (e : CacheEntry) : t :=
  let e := mk_entry (position e) (key e) (value e) (score e) (pinned e)
                    (admissions st) in
  match free_slot st with
  | Some i => occupy e i st
  | None =>
      match victim st with
      | Some i =>
          let st' := occupy e i st in
          mk (config st') (slots st') (mask st') (admissions st')
             (S (evictions st'))
      | None => st
      end
  end.

(** Modelled from the spec: [cache.py] is missing.  The entries of a step:
    one per position, with that position's vector of every head (batch 0). *)
Definition entries_of (input_pos : list Z) (k v : tensor) : list CacheEntry :=
  imap (λ j p,
          mk_entry p
            ((λ rows : list (list Qc), default [] (rows !! j))
               <$> default [] (k !! 0%nat))
            ((λ rows : list (list Qc), default [] (rows !! j))
               <$> default [] (v !! 0%nat))
            0%Qc false 0)
       input_pos.

(** Modelled from the spec: [cache.py] is missing.  The buffers as tensors of
    shape (1, heads, capacity, _) and the mask as (1, heads, 1, capacity). *)
Definition keys_tensor (st : t) : tensor :=
  [ (λ h, (λ e, default [] (key e !! h)) <$> slots st)
      <$> seq 0 (head_count (config st)) ].
(** Modelled from the spec: [cache.py] is missing.  As [keys_tensor]. *)
Definition values_tensor (st : t) : tensor :=
  [ (λ h, (λ e, default [] (value e !! h)) <$> slots st)
      <$> seq 0 (head_count (config st)) ].
(** Modelled from the spec: [cache.py] is missing.  The validity mask, the
    same for every head. *)
Definition mask_tensor (st : t) : btensor :=
  [ (λ _, [mask st]) <$> seq 0 (head_count (config st)) ].

(** Modelled from the spec: [cache.py] is missing.  Bulk and streaming
    admission alike take the entries in one by one; the answer is the buffers
    and the validity mask (sections 2 and 6). *)
Definition update_kv (input_pos : list Z) (k v : tensor) (is_prefill : bool)
    (input_ids : token_ids) (st : t) : (tensor * tensor * btensor) * t :=
  let st' := foldl accept_one st (entries_of input_pos k v) in
  ((keys_tensor st', values_tensor st', mask_tensor st'), st').

(** Modelled from the spec: [cache.py] is missing.  Neither rule uses the
    feedback (section 4.2: a no-op for policies that do not need it). *)
Definition update_state (input_pos : list Z) (k v : tensor)
    (is_prefill : bool) (attn : option tensor) (input_ids : token_ids)
    (st : t) : t := st.

(** Modelled from the spec: [cache.py] is missing.  The footprint is a closed
    form of the configuration, not measured: capacity, size of an entry and
    number of heads (section 4.5). *)
Definition memory_footprint (cfg : CacheConfig) : Qc :=
  (Qc_of_Z (Z.of_nat (capacity cfg)) * entry_size cfg
   * Qc_of_Z (Z.of_nat (head_count cfg)))%Qc.

(** Modelled from the spec: [cache.py] is missing.  [statistics]: occupancy,
    capacity, footprint and eviction count (sections 4.4 and 4.5), under the
    key [model.py] pops for the footprint; read-only. *)
Definition compute_statistics (seq_len : Z) (st : t)
  : gmap string Qc * t :=
  (<["occupancy" := Qc_of_Z (Z.of_nat (occupancy st))]>
     (<["capacity" := Qc_of_Z (Z.of_nat (capacity (config st)))]>
        (<["cache_memory_gb" := memory_footprint (config st)]>
           (<["evictions" := Qc_of_Z (Z.of_nat (evictions st))]> ∅))),
   st).

(** Modelled from the spec: [cache.py] is missing.  The store as a cache of
    [model.py]; [max_cache_length] is the capacity and [return_attn()] the
    capability flag. *)
Global Instance kv_cache : KVCache t :=
  Build_KVCache t
    (λ st, Z.of_nat (capacity (config st)))
    (λ st, needs_attention_weights (config st))
    reset compute_statistics update_kv update_state.

End SlotStore.

(** ** Concrete collaborators

    Small instances on which the step and the queries are run: stand-in
    kernels (one key/value head, two query heads), the recency compressor and
    slot stores of capacity two. *)

Module Fixtures.

(** Stand-in kernels: the projections copy the activations, the output is
    the query, every weight is one. *)
Definition toy_numerics : Numerics :=
  Build_Numerics
    (λ x _, ((λ b, [b; b]) <$> x, (λ b, [b]) <$> x, (λ b, [b]) <$> x))
    (λ q _ _ _ _, q)
    (λ q k _ _ _,
       (λ qb : list (list (list Qc)),
          (λ qh : list (list Qc),
             (λ _ : list Qc,
                (λ _ : list Qc, 1%Qc)
                  <$> default [] (head (default [] (head k))))
               <$> qh)
            <$> qb)
         <$> q)
    (λ _ n_local _ _ w, take (Z.to_nat n_local) <$> w)
    (λ y, (λ yb, default [] (head yb)) <$> y).

(** Modelled from the spec: [prompt_compression.py] is missing.  The
    recency-suffix truncation keeps the last [cap] positions, in order. *)
Definition drop_rows (n : nat) (t : tensor) : tensor :=
  (λ b : list (list (list Qc)), (λ h : list (list Qc), drop n h) <$> b) <$> t.

Definition recent_compressor (cap : nat) : compressor :=
  λ input_pos k v attn,
    let n := (length input_pos - cap)%nat in
    (drop n input_pos, drop_rows n k, drop_rows n v, attn).

Definition toy_attention : Attention.t :=
  Attention.mk 2 2 1 2 (recent_compressor 2).

Definition quarter : Qc := Q2Qc (1 # 4).

Definition cfg_full : SlotStore.CacheConfig :=
  SlotStore.mk_config 2 1 1 quarter SlotStore.FullRetention false.
Definition cfg_scored : SlotStore.CacheConfig :=
  SlotStore.mk_config 2 1 1 quarter SlotStore.SlidingWindow true.

Definition store_full : SlotStore.t := SlotStore.empty cfg_full.
Definition store_scored : SlotStore.t := SlotStore.empty cfg_scored.

Definition row (l : list Z) : list Qc := Qc_of_Z <$> l.

(** One token, three tokens. *)
Definition x1 : acts := [[row [1; 2]]].
Definition x3 : acts := [[row [1; 2]; row [3; 4]; row [5; 6]]].
Definition ids1 : token_ids := [[7]].
Definition ids3 : token_ids := [[7; 8; 9]].

(** An explicit mask that lets every query head see both slots. *)
Definition open_mask : btensor := [[[[true; true]]; [[true; true]]]].

(** A store that holds one entry, and a model of two layers. *)
Definition store_one : SlotStore.t :=
  (SlotStore.update_kv [0] [[[row [1; 2]]]] [[[row [1; 2]]]] false ids1
     store_full).2.

Definition model2 : list SlotStore.t := [store_one; store_scored].

(** A store of three slots under either rule, and a run of decode
    admissions, one position at a time. *)
Definition cfg3 (s : SlotStore.Strategy) : SlotStore.CacheConfig :=
  SlotStore.mk_config 3 1 1 quarter s false.

Definition feed (st : SlotStore.t) (ps : list Z) : SlotStore.t :=
  foldl (λ st p,
           (SlotStore.update_kv [p] [[[row [p; p]]]] [[[row [p; p]]]] false
              [[p]] st).2)
        st ps.

End Fixtures.

(** ** The registry of configurations and [ModelArgs.from_name] *)

Module Registry.

(** A keyword argument of the dataclass constructor.  [rope_scaling] is the
    field [ModelArgs.t] leaves out; passing it changes none of the others. *)
Inductive kwarg :=
  | block_size (v : Z)
  | vocab_size (v : Z)
  | n_layer (v : Z)
  | n_head (v : Z)
  | dim (v : Z)
  | intermediate_size (v : Z)
  | n_local_heads (v : Z)
  | rope_base (v : Z)
  | norm_eps (v : Qc)
  | attention_bias (v : bool)
  | max_length (v : Z)
  | rope_scaling.

Definition set_kwarg (a : ModelArgs.t) (kw : kwarg) : ModelArgs.t :=
  let '(ModelArgs.mk bs vs nl nh d isz nlh hd rb ne ab ml) := a in
  match kw with
  | block_size v => ModelArgs.mk v vs nl nh d isz nlh hd rb ne ab ml
  | vocab_size v => ModelArgs.mk bs v nl nh d isz nlh hd rb ne ab ml
  | n_layer v => ModelArgs.mk bs vs v nh d isz nlh hd rb ne ab ml
  | n_head v => ModelArgs.mk bs vs nl v d isz nlh hd rb ne ab ml
  | dim v => ModelArgs.mk bs vs nl nh v isz nlh hd rb ne ab ml
  | intermediate_size v => ModelArgs.mk bs vs nl nh d (Some v) nlh hd rb ne ab ml
  | n_local_heads v => ModelArgs.mk bs vs nl nh d isz v hd rb ne ab ml
  | rope_base v => ModelArgs.mk bs vs nl nh d isz nlh hd (Qc_of_Z v) ne ab ml
  | norm_eps v => ModelArgs.mk bs vs nl nh d isz nlh hd rb v ab ml
  | attention_bias v => ModelArgs.mk bs vs nl nh d isz nlh hd rb ne v ml
  | max_length v => ModelArgs.mk bs vs nl nh d isz nlh hd rb ne ab v
  | rope_scaling => a
  end.

(** The constructor on keyword arguments: the defaults, the arguments, then
    [__post_init__]. *)
Definition construct (kwargs : list kwarg) : option ModelArgs.t :=
  ModelArgs.post_init (foldl set_kwarg ModelArgs.default kwargs).

(** [transformer_configs], in the order of the source. *)
Definition transformer_configs : list (string * list kwarg) :=
  [ ("CodeLlama-7b-Python-hf",
     [block_size 16384; vocab_size 32000; n_layer 32; dim 4096;
      rope_base 1000000]);
    ("LLaMA-2-7B-32K",
     [block_size 32000; vocab_size 32000; n_layer 32; dim 4096]);
    ("7B", [n_layer 32; n_head 32; dim 4096]);
    ("13B", [n_layer 40; n_head 40; dim 5120]);
    ("30B", [n_layer 60; n_head 52; dim 6656]);
    ("34B",
     [n_layer 48; n_head 64; dim 8192; vocab_size 32000; n_local_heads 8;
      intermediate_size 22016; rope_base 1000000]);
    ("70B",
     [n_layer 80; n_head 64; dim 8192; n_local_heads 8;
      intermediate_size 28672]);
    ("Mistral-7B",
     [n_layer 32; n_head 32; n_local_heads 8; dim 4096;
      intermediate_size 14336; vocab_size 32000]);
    ("stories15M", [n_layer 6; n_head 6; dim 288]);
    ("stories110M", [n_layer 12; n_head 12; dim 768]);
    ("Meta-Llama-3-8B-Instruct",
     [block_size 8192; n_layer 32; n_head 32; n_local_heads 8; dim 4096;
      intermediate_size 14336; vocab_size 128256; rope_base 500000;
      max_length 8192]);
    ("Meta-Llama-3.1-8B-Instruct",
     [block_size 131072; n_layer 32; n_head 32; n_local_heads 8; dim 4096;
      intermediate_size 14336; vocab_size 128256; rope_base 500000;
      max_length 131072; rope_scaling]);
    ("Qwen2-1.5B-Instruct",
     [block_size 32768; n_layer 28; n_head 12; n_local_heads 2; dim 1536;
      intermediate_size 8960; vocab_size 151936; rope_base 1000000;
      attention_bias true; norm_eps (Q2Qc (1 # 1000000)); max_length 32768]);
    ("Qwen2-0.5B-Instruct",
     [block_size 32768; n_layer 24; n_head 14; n_local_heads 2; dim 896;
      intermediate_size 4864; vocab_size 151936; rope_base 1000000;
      attention_bias true; norm_eps (Q2Qc (1 # 1000000)); max_length 32768]);
    ("Qwen2-7B-Instruct",
     [block_size 32768; n_layer 28; n_head 28; n_local_heads 4; dim 3584;
      intermediate_size 18944; vocab_size 152064; rope_base 1000000;
      attention_bias true; norm_eps (Q2Qc (1 # 1000000)); max_length 32768])
  ].

(** [str.upper()] on a name of ASCII characters. *)
Definition ascii_upper (c : ascii) : ascii :=
  let n := nat_of_ascii c in
  if ((97 <=? n) && (n <=? 122))%nat then ascii_of_nat (n - 32) else c.

Fixpoint upper (s : string) : string :=
  match s with
  | EmptyString => EmptyString
  | String c s' => String (ascii_upper c) (upper s')
  end.

(** [needle in hay] *)
Fixpoint str_in (needle hay : string) : bool :=
  String.prefix needle hay
  || match hay with
     | EmptyString => false
     | String _ hay' => str_in needle hay'
     end.

(** [config in str(name).upper() or config in str(name)] *)
Definition matches (name config : string) : bool :=
  str_in config (upper name) || str_in config name.

(** [l.sort(key=len, reverse=True)]: by decreasing length, strings of one
    length in the order they had. *)
Fixpoint insert_by_len (x : string) (l : list string) : list string :=
  match l with
  | [] => [x]
  | y :: l' =>
      if (String.length y <=? String.length x)%nat then x :: l
      else y :: insert_by_len x l'
  end.

Definition sort_by_len (l : list string) : list string :=
  foldr insert_by_len [] l.

(** [d.get(key)] on a dictionary given by its items, whose keys are
    distinct. *)
Fixpoint item {A} (key : string) (d : list (string * A)) : option A :=
  match d with
  | [] => None
  | (k, v) :: d' => if decide (k = key) then Some v else item key d'
  end.

(** Lines 65 to 69: several candidates are sorted, and the assertion wants
    the first two to differ in length. *)
Definition best_first (config : list string) : option (list string) :=
  if decide (1 < length config)%nat then
    let config := sort_by_len config in
    match config with
    | c0 :: c1 :: _ =>
        if decide (String.length c0 ≠ String.length c1)
        then Some config else None
    | _ => Some config
    end
  else Some config.

(** [from_name] over a dictionary [configs]: the entry of that very name if
    there is one, else the entry whose key is the longest of those the name
    contains.  [None] is an [IndexError] (no key matches), an
    [AssertionError] (the two longest do not differ in length), or what the
    constructor raises. *)
Definition from_name_in (configs : list (string * list kwarg)) (name : string)
  : option ModelArgs.t :=
  match item name configs with
  | Some kwargs => construct kwargs
  | None =>
      let config := filter (λ c, matches name c) (fst <$> configs) in
      config ← best_first config;
      c0 ← head config;
      kwargs ← item c0 configs;
      construct kwargs
  end.

Definition from_name : string → option ModelArgs.t :=
  from_name_in transformer_configs.

End Registry.

(** ** [Attention.__init__] and the split of the fused projection *)

Module AttentionSetup.

(** Lines 339 to 341: the assertion [dim % n_head == 0] (the remainder
    raises for no head at all) and [total_head_dim], the width of [wqkv]. *)
Definition total_head_dim (config : ModelArgs.t) : option Z :=
  if decide (ModelArgs.n_head config = 0) then None
  else if decide (ModelArgs.dim config `mod` ModelArgs.n_head config = 0)
  then Some ((ModelArgs.n_head config + 2 * ModelArgs.n_local_heads config)
             * ModelArgs.head_dim config)
  else None.

(** Lines 348 to 351, with the compressor that [setup_caches] installs. *)
Definition of_config (config : ModelArgs.t) (pc : compressor) : Attention.t :=
  Attention.mk (ModelArgs.n_head config) (ModelArgs.head_dim config)
               (ModelArgs.n_local_heads config) (ModelArgs.dim config) pc.

(** Lines 381 and 382: the sizes [forward] splits the projection into. *)
Definition split_sizes (self : Attention.t) : list Z :=
  let kv_size := Attention.n_local_heads self * Attention.head_dim self in
  [Attention.dim self; kv_size; kv_size].

End AttentionSetup.

(** ** [Attention.load_hook]

    The state dictionary maps names to weights; [cat] is [torch.cat] on a list
    of weights, which raises on shapes that do not fit.  The hook changes the
    dictionary in place: what it leaves behind is returned also when it
    raises. *)

Section load_hook_def.
Context {W : Type} (cat : list W → option W).

Definition load_hook (prefix : string) (state_dict : gmap string W)
  : option () * gmap string W :=
  match state_dict !! (prefix +:+ "wq.weight") with
  | None => (Some (), state_dict)
  | Some wq =>
      let sd1 := delete (prefix +:+ "wq.weight") state_dict in
      match sd1 !! (prefix +:+ "wk.weight") with
      | None => (None, sd1)
      | Some wk =>
          let sd2 := delete (prefix +:+ "wk.weight") sd1 in
          match sd2 !! (prefix +:+ "wv.weight") with
          | None => (None, sd2)
          | Some wv =>
              let sd3 := delete (prefix +:+ "wv.weight") sd2 in
              match cat [wq; wk; wv] with
              | None => (None, sd3)
              | Some w => (Some (), <[prefix +:+ "wqkv.weight" := w]> sd3)
              end
          end
      end
  end.

End load_hook_def.

(** ** [Transformer.setup_caches] *)

(** The values of the keyword arguments: numbers, names, and lists with one
    item per layer. *)
#[warnings="-register-all"]
Inductive PyVal :=
  | PInt (n : Z)
  | PStr (s : string)
  | PList (l : list PyVal).

(** [v[i]] for an index that is not negative: an item of a list, a character
    of a string; a number has no items. *)
Definition py_index (v : PyVal) (i : nat) : option PyVal :=
  match v with
  | PList l => l !! i
  | PStr s => (λ c, PStr (String c EmptyString)) <$> String.get i s
  | PInt _ => None
  end.

Definition layerwise_keys : list string :=
  ["max_cache_length"; "recent_window"; "prompt_compression_strategy"].

(** [kwargs[k][layer_idx] if k in layerwise_keys else kwargs[k]] *)
Definition kwarg_for (kwargs : gmap string PyVal) (layer_idx : nat)
    (k : string) : option PyVal :=
  v ← kwargs !! k;
  if decide (k ∈ layerwise_keys) then py_index v layer_idx else Some v.

(** The dictionary comprehension of lines 216 to 219. *)
Definition layer_kwargs (kwargs : gmap string PyVal) (relevant : list string)
    (layer_idx : nat) : option (gmap string PyVal) :=
  foldl (λ acc k,
           acc ← acc;
           v ← kwarg_for kwargs layer_idx k;
           Some (<[k := v]> acc))
        (Some ∅) relevant.

Section setup_caches_def.
Context {C Ctor D : Type}.

(** [cache.get_cache_constructor], the constructor it returns (called with
    [max_batch_size], [n_local_heads], [head_dim], [layer_idx], [dtype] and
    the layer's keyword arguments), the cache's [head_specific] attribute,
    [prompt_compression.get_prompt_compressor_constructor] and
    [precompute_freqs_cis] at the configuration's [rope_scaling], which the
    record does not carry. *)
Context (get_cache_constructor : PyVal → option (Ctor * list string))
        (cache_constructor :
           Ctor → Z → Z → Z → nat → D → gmap string PyVal → option C)
        (head_specific : C → bool)
        (get_prompt_compressor_constructor :
           PyVal → option (bool → gmap string PyVal → option compressor))
        (precompute_freqs_cis : Z → Z → Qc → D → list (list (list Qc))).

(** The body of the loop, lines 207 to 231.  Passing [head_specific] twice,
    by name and through the layer's arguments, raises. *)
Definition setup_layer (config : ModelArgs.t) (head_dim : Z) (dtype : D)
    (cache_strategy : PyVal) (kwargs : gmap string PyVal) (layer_idx : nat)
  : option (C * compressor) :=
  strategy ← py_index cache_strategy layer_idx;
  found ← get_cache_constructor strategy;
  lk ← layer_kwargs kwargs found.2 layer_idx;
  cache ← cache_constructor found.1 1 (ModelArgs.n_local_heads config)
             head_dim layer_idx dtype lk;
  pcs ← kwargs !! "prompt_compression_strategy";
  pcs ← py_index pcs layer_idx;
  make ← get_prompt_compressor_constructor pcs;
  if decide (is_Some (lk !! "head_specific")) then None
  else
    pc ← make (head_specific cache) lk;
    Some (cache, pc).

(** [setup_caches] on a model of [n_layers] blocks: the cache and the
    compressor of every layer, and [freqs_cis].  What a run that raises has
    already installed is not kept. *)
Definition setup_caches (config : ModelArgs.t) (n_layers : nat) (dtype : D)
    (kwargs : gmap string PyVal)
  : option (list (C * compressor) * list (list (list Qc))) :=
  cache_strategy ← kwargs !! "cache_strategy";
  let kwargs := delete "cache_strategy" kwargs in
  head_dim ← floordiv (ModelArgs.dim config) (ModelArgs.n_head config);
  layers ← mapM (setup_layer config head_dim dtype cache_strategy kwargs)
              (seq 0 n_layers);
  Some (layers,
        precompute_freqs_cis (ModelArgs.block_size config) head_dim
          (ModelArgs.rope_base config) dtype).

End setup_caches_def.

(** ** [TransformerBlock.forward] and [Transformer.forward] *)

(** A block: its attention module with that module's kernels, the two norms
    and the feed-forward network. *)
Record Block := mk_block {
  attention : Attention.t;
  kernels : Numerics;
  attention_norm : acts → acts;
  ffn_norm : acts → acts;
  feed_forward : acts → acts;
}.

Section transformer_forward_def.
Context {C : Type} `{KVCache C}.

(** The sum of activations, the embedding, the final norm, the output
    projection, and [self.freqs_cis[input_pos]], which raises on a position
    outside the table. *)
Context (add : acts → acts → acts)
        (tok_embeddings : token_ids → acts)
        (norm : acts → acts)
        (output : acts → acts)
        (index_freqs : list (list (list Qc)) → list Z → option tensor).

Definition block_forward (b : Block) (x : acts) (input_ids : token_ids)
    (input_pos : list Z) (is_prefill : bool) (freqs_cis : tensor)
    (mask : option btensor) (attn_top_k : Qc) : M C acts :=
  a ← @Attention.forward C _ (kernels b) (attention b) (attention_norm b x)
         input_ids freqs_cis mask is_prefill input_pos attn_top_k;
  let h := add x a in
  mret (add h (feed_forward b (ffn_norm b h))).

(** The loop over the layers, each on its own cache.  A layer that raises
    stops the loop; the caches before it have been updated. *)
Fixpoint run_layers (layers : list (Block * C)) (x : acts)
    (input_ids : token_ids) (input_pos : list Z) (is_prefill : bool)
    (freqs_cis : tensor) (mask : option btensor) (attn_top_k : Qc)
  : option acts * list (Block * C) * list Event :=
  match layers with
  | [] => (Some x, [], [])
  | (b, c) :: rest =>
      match block_forward b x input_ids input_pos is_prefill freqs_cis mask
              attn_top_k c with
      | (None, c', t) => (None, (b, c') :: rest, t)
      | (Some x', c', t) =>
          match run_layers rest x' input_ids input_pos is_prefill freqs_cis
                  mask attn_top_k with
          | (r, rest', t') => (r, (b, c') :: rest', t ++ t')
          end
      end
  end.

(** [Transformer.forward]; [freqs_cis] is [None] until [setup_caches] ran,
    and the assertion then fails. *)
Definition transformer_forward (freqs_cis : option (list (list (list Qc))))
    (layers : list (Block * C)) (idx : token_ids) (input_pos : list Z)
    (is_prefill : bool) (mask : option btensor) (attn_top_k : Qc)
  : option acts * list (Block * C) * list Event :=
  match freqs_cis with
  | None => (None, layers, [])
  | Some table =>
      match index_freqs table input_pos with
      | None => (None, layers, [])
      | Some freqs =>
          let x := tok_embeddings idx in
          match run_layers layers x idx input_pos is_prefill freqs mask
                  attn_top_k with
          | (r, layers', t) => ((λ x, output (norm x)) <$> r, layers', t)
          end
      end
  end.

End transformer_forward_def.

(** A checkpoint with the separate projections of two layers, weights given
    by their rows, and the concatenation of rows. *)
Module HookFixtures.

Definition rows_cat (ws : list (list (list Z))) : option (list (list Z)) :=
  Some (concat ws).

Definition checkpoint : gmap string (list (list Z)) :=
  <["layers.0.attention.wq.weight" := [[1; 2]; [3; 4]]]>
    (<["layers.0.attention.wk.weight" := [[5; 6]]]>
       (<["layers.0.attention.wv.weight" := [[7; 8]]]>
          (<["layers.1.attention.wq.weight" := [[11; 12]; [13; 14]]]>
             (<["layers.1.attention.wk.weight" := [[15; 16]]]>
                (<["layers.1.attention.wv.weight" := [[17; 18]]]>
                   (<["tok_embeddings.weight" := [[0; 0]]]> ∅)))))).

(** The same without the key projection of layer 0. *)
Definition broken : gmap string (list (list Z)) :=
  delete "layers.0.attention.wk.weight" checkpoint.

End HookFixtures.

(** Stand-ins for the two factories, over the slot store: the strategy
    names ["full"] and ["window"], the keyword arguments a store reads, the
    recency compressor for every compression strategy. *)
Module SetupFixtures.

Definition get_cache_constructor (strategy : PyVal)
  : option (SlotStore.Strategy * list string) :=
  match strategy with
  | PStr "full" => Some (SlotStore.FullRetention, ["max_cache_length"; "global_tokens"])
  | PStr "window" =>
      Some (SlotStore.SlidingWindow,
            ["max_cache_length"; "recent_window"; "global_tokens"])
  | _ => None
  end.

Definition int_of (v : option PyVal) : option Z :=
  match v with Some (PInt n) => Some n | _ => None end.

Definition cache_constructor (ctor : SlotStore.Strategy)
    (max_batch_size n_heads head_dim : Z) (layer_idx : nat) (dtype : ())
    (kw : gmap string PyVal) : option SlotStore.t :=
  cap ← int_of (kw !! "max_cache_length");
  let window := default 0 (int_of (kw !! "recent_window")) in
  Some (SlotStore.empty
          (SlotStore.mk_config (Z.to_nat cap) (Z.to_nat window)
             (Z.to_nat n_heads) Fixtures.quarter ctor false)).

Definition head_specific (c : SlotStore.t) : bool := false.

Definition get_prompt_compressor_constructor (strategy : PyVal)
  : option (bool → gmap string PyVal → option compressor) :=
  match strategy with
  | PStr _ =>
      Some (λ _ kw,
              cap ← int_of (kw !! "max_cache_length");
              Some (Fixtures.recent_compressor (Z.to_nat cap)))
  | _ => None
  end.

Definition precompute_freqs_cis (seq_len n_elem : Z) (base : Qc) (dtype : ())
  : list (list (list Qc)) :=
  replicate (Z.to_nat seq_len) [].

(** The arguments of a run on two layers, with capacities 4 and 8. *)
Definition kwargs2 : gmap string PyVal :=
  <["cache_strategy" := PList [PStr "full"; PStr "window"]]>
    (<["max_cache_length" := PList [PInt 4; PInt 8]]>
       (<["recent_window" := PList [PInt 1; PInt 2]]>
          (<["prompt_compression_strategy" :=
               PList [PStr "recent_global"; PStr "recent_global"]]>
             (<["global_tokens" := PInt 1]> ∅)))).

Definition config2 : ModelArgs.t :=
  foldl Registry.set_kwarg ModelArgs.default
    [Registry.n_layer 2; Registry.n_head 4; Registry.n_local_heads 2;
     Registry.dim 16; Registry.block_size 8].

Definition setup2 :=
  setup_caches get_cache_constructor cache_constructor head_specific
    get_prompt_compressor_constructor precompute_freqs_cis config2 2 ()
    kwargs2.

End SetupFixtures.

(** An attention module without key/value heads, one with three query heads
    on two key/value heads, and a model of two blocks on the toy kernels. *)
Module ForwardFixtures.

Definition headless_attention : Attention.t :=
  Attention.mk 2 2 0 2 (Fixtures.recent_compressor 2).

Definition uneven_attention : Attention.t :=
  Attention.mk 3 2 2 6 (Fixtures.recent_compressor 2).

Definition toy_block : Block :=
  mk_block Fixtures.toy_attention Fixtures.toy_numerics id id id.

Definition headless_block : Block :=
  mk_block headless_attention Fixtures.toy_numerics id id id.

Definition add (a b : acts) : acts := a.

Definition tok_embeddings (idx : token_ids) : acts :=
  (λ ids : list Z, (λ t, Fixtures.row [t; t]) <$> ids) <$> idx.

Definition index_freqs (table : list (list (list Qc))) (input_pos : list Z)
  : option tensor :=
  rows ← mapM (λ p, if decide (0 ≤ p) then table !! Z.to_nat p else None)
            input_pos;
  Some [rows].

Definition blocks2 : list (Block * SlotStore.t) :=
  [(toy_block, Fixtures.store_full); (toy_block, Fixtures.store_scored)].

Definition broken2 : list (Block * SlotStore.t) :=
  [(toy_block, Fixtures.store_full); (headless_block, Fixtures.store_scored);
   (toy_block, Fixtures.store_full)].

Definition table2 : list (list (list Qc)) := replicate 4 [].

End ForwardFixtures.

(** ** Properties of [find_multiple] *)

Lemma find_multiple_nonzero n k :
  k ≠ 0 → ∃ m, find_multiple n k = Some m ∧ m `mod` k = 0.
Proof.
  intros Hk. unfold find_multiple.
  destruct (decide (k = 0)) as [|_]; [done|].
  destruct (decide (n `mod` k = 0)) as [Hm|Hm]; [by eauto|].
  eexists; split; [done|].
  replace (n + k - n `mod` k) with (n - n `mod` k + 1 * k) by lia.
  rewrite Z.mod_add by done.
  rewrite Zminus_mod, Zmod_mod, Z.sub_diag. by apply Zmod_0_l.
Qed.

Lemma find_multiple_zero n : find_multiple n 0 = None.
Proof. done. Qed.

(** C9.  For positive [n] and [k], [find_multiple n k] returns the least
    multiple of [k] that is at least [n], and it returns [n] itself exactly
    when [k] divides [n]. *)
Theorem find_multiple_least (n k : Z) (Hn : 0 < n) (Hk : 0 < k) :
  ∃ m, find_multiple n k = Some m
     ∧ (k | m) ∧ n ≤ m
     ∧ (∀ m', (k | m') → n ≤ m' → m ≤ m')
     ∧ (m = n ↔ (k | n)).
Proof.
  unfold find_multiple.
  destruct (decide (k = 0)) as [|_]; [lia|].
  pose proof (Z.mod_pos_bound n k Hk) as Hb.
  pose proof (Z.div_mod n k ltac:(lia)) as Hdm.
  destruct (decide (n `mod` k = 0)) as [Hm|Hm].
  - exists n. split; [done|]. split_and!.
    + apply Z.mod_divide; [lia|done].
    + lia.
    + intros; lia.
    + split; [intros _|done]. apply Z.mod_divide; [lia|done].
  - exists (n + k - n `mod` k). split; [done|]. split_and!.
    + exists (n `div` k + 1). lia.
    + lia.
    + intros m' [q ->] Hle.
      assert (n `div` k < q) by nia. nia.
    + split; [lia|]. intros Hd. apply Z.mod_divide in Hd; lia.
Qed.

Lemma find_multiple_least_witness :
  ∃ m, find_multiple 10 4 = Some m
     ∧ (4 | m) ∧ 10 ≤ m
     ∧ (∀ m', (4 | m') → 10 ≤ m' → m ≤ m')
     ∧ (m = 10 ↔ (4 | 10)).
Proof. apply (find_multiple_least 10 4); lia. Defined.

Example find_multiple_10_4 : find_multiple 10 4 = Some 12.
Proof. reflexivity. Qed.

Example find_multiple_default_hidden :
  find_multiple (ModelArgs.n_hidden_of ModelArgs.default) 256 = Some 11008.
Proof. reflexivity. Qed.

(** ** Properties of [ModelArgs.__post_init__] *)

Lemma post_init_raises (a : ModelArgs.t) :
  ModelArgs.n_head a = 0 → ModelArgs.post_init a = None.
Proof.
  destruct a as [bs vs nl nh d [m|] nlh hd rb ne ab ml]; simpl; intros ->;
    unfold ModelArgs.post_init; simpl.
  - by destruct (decide (nlh = -1)).
  - destruct (decide (nlh = -1)); simpl;
      by destruct (find_multiple _ 256).
Qed.



Example post_init_mistral_7B :
  (ModelArgs.head_dim <$> ModelArgs.post_init ModelArgs.mistral_7B) = Some 128
  ∧ (ModelArgs.n_local_heads <$> ModelArgs.post_init ModelArgs.mistral_7B)
    = Some 8
  ∧ (ModelArgs.intermediate_size <$> ModelArgs.post_init ModelArgs.mistral_7B)
    = Some (Some 14336).
Proof. split_and!; reflexivity. Qed.

Example post_init_stories15M :
  (ModelArgs.head_dim <$> ModelArgs.post_init ModelArgs.stories15M) = Some 48
  ∧ (ModelArgs.n_local_heads <$> ModelArgs.post_init ModelArgs.stories15M)
    = Some 6
  ∧ (ModelArgs.intermediate_size <$> ModelArgs.post_init ModelArgs.stories15M)
    = Some (Some 768).
Proof. split_and!; reflexivity. Qed.

(** ** The cache queries of [Transformer] *)

Section transformer_facts.
Context {C : Type} `{KVCache C}.

Lemma reset_caches_length (layers : list C) :
  length (reset_caches layers) = length layers.
Proof. apply length_fmap. Qed.

Lemma reset_caches_lookup (layers : list C) i :
  reset_caches layers !! i = reset <$> layers !! i.
Proof. apply list_lookup_fmap. Qed.

Lemma prompt_cache_overflow_pure (n : Z) (layers : list C) :
  (prompt_cache_overflow n layers).2 = layers.
Proof. done. Qed.

Lemma min_cache_length_pure (layers : list C) :
  (min_cache_length layers).2 = layers.
Proof. done. Qed.

Lemma foldl_min_le (xs : list Z) x : foldl Z.min x xs ≤ x.
Proof.
  revert x. induction xs as [|y xs IH]; intros x; simpl; [lia|].
  etrans; [apply IH|]. lia.
Qed.

Lemma foldl_min_lower (xs : list Z) x y :
  y ∈ xs → foldl Z.min x xs ≤ y.
Proof.
  revert x. induction xs as [|z xs IH]; intros x; [by intros ?%elem_of_nil|].
  intros [->|Hin]%elem_of_cons; simpl.
  - etrans; [apply foldl_min_le|]. lia.
  - by apply IH.
Qed.

Lemma foldl_min_elem (xs : list Z) x :
  foldl Z.min x xs = x ∨ foldl Z.min x xs ∈ xs.
Proof.
  revert x. induction xs as [|z xs IH]; intros x; simpl; [by left|].
  destruct (IH (x `min` z)) as [->|Hin].
  - destruct (Z.min_spec x z) as [[_ ->]|[_ ->]]; [by left|].
    right. by left.
  - right. by right.
Qed.

(** [min_cache_length] is the least capacity of a model with layers. *)
Lemma min_cache_length_least (layers : list C) layer :
  layer ∈ layers →
  ∃ m, (min_cache_length layers).1 = Some m
     ∧ m ≤ max_cache_length layer
     ∧ ∃ layer', layer' ∈ layers ∧ m = max_cache_length layer'.
Proof.
  intros Hin. unfold min_cache_length; simpl.
  destruct layers as [|c cs]; [by apply elem_of_nil in Hin|].
  simpl. eexists; split; [done|]. split.
  - apply elem_of_cons in Hin as [->|Hin]; [apply foldl_min_le|].
    apply foldl_min_lower. by apply list_elem_of_fmap_2.
  - destruct (foldl_min_elem (max_cache_length <$> cs) (max_cache_length c))
      as [Heq|(c' & Heq & Hc')%list_elem_of_fmap].
    + exists c. split; [by left|done].
    + exists c'. split; [by right|done].
Qed.

(** C6.  The overflow query answers for every layer, in order, and its
    answer for a layer is true exactly when the prompt is strictly longer
    than that layer's [max_cache_length]. *)
Theorem prompt_cache_overflow_spec (prompt_length : Z) (layers : list C) :
  length (prompt_cache_overflow prompt_length layers).1 = length layers
  ∧ ∀ i layer, layers !! i = Some layer →
      ∃ b, (prompt_cache_overflow prompt_length layers).1 !! i = Some b
         ∧ (b = true ↔ max_cache_length layer < prompt_length).
Proof.
  unfold prompt_cache_overflow; simpl. split; [apply length_fmap|].
  intros i layer Hi. rewrite list_lookup_fmap, Hi; simpl.
  eexists; split; [done|]. rewrite bool_decide_eq_true. lia.
Qed.

End transformer_facts.

Example prompt_cache_overflow_model2 :
  (prompt_cache_overflow 3 Fixtures.model2).1 = [true; true]
  ∧ (prompt_cache_overflow 2 Fixtures.model2).1 = [false; false]
  ∧ (min_cache_length Fixtures.model2).1 = Some 2
  ∧ (min_cache_length ([] : list SlotStore.t)).1 = None.
Proof. split_and!; reflexivity. Qed.

(** ** Prompt compression and the forward step *)

Lemma expand_heads_length {A} (r : nat) (t : list (list A)) :
  length (expand_heads r t) = length t.
Proof. apply length_fmap. Qed.

Lemma bind_replicate_lookup {A} (r : nat) (heads : list A) (h : nat) :
  (0 < r)%nat →
  (heads ≫= replicate r) !! h = heads !! (h `div` r)%nat.
Proof.
  intros Hr. revert h. induction heads as [|a heads IH]; intros h; [done|].
  change ((a :: heads) ≫= replicate r) with (replicate r a ++ (heads ≫= replicate r)).
  destruct (decide (h < r)%nat) as [Hlt|Hge].
  - rewrite lookup_app_l by (by rewrite length_replicate).
    rewrite Nat.div_small by done. simpl.
    by apply lookup_replicate_2.
  - rewrite lookup_app_r by (rewrite length_replicate; lia).
    rewrite length_replicate, IH.
    replace h with ((h - r) + 1 * r)%nat at 2 by lia.
    rewrite Nat.div_add by lia.
    by replace ((h - r) `div` r + 1)%nat with (S ((h - r) `div` r)) by lia.
Qed.

Lemma bind_replicate_length {A} (r : nat) (heads : list A) :
  length (heads ≫= replicate r) = (length heads * r)%nat.
Proof.
  induction heads as [|a heads IH]; [done|].
  change ((a :: heads) ≫= replicate r) with (replicate r a ++ (heads ≫= replicate r)).
  rewrite length_app, length_replicate, IH. simpl. lia.
Qed.

(** Query head [h] reads the key/value head [h // r]. *)
Lemma expand_heads_lookup {A} (r : nat) (t : list (list A)) b heads h :
  (0 < r)%nat → t !! b = Some heads →
  ∃ heads', expand_heads r t !! b = Some heads'
          ∧ length heads' = (length heads * r)%nat
          ∧ heads' !! h = heads !! (h `div` r)%nat.
Proof.
  intros Hr Hb. unfold expand_heads. rewrite list_lookup_fmap, Hb; simpl.
  eexists; split; [done|].
  split; [apply bind_replicate_length|by apply bind_replicate_lookup].
Qed.

Lemma repeat_interleave_nonneg {A} (r : Z) (t : list (list A)) :
  0 ≤ r → repeat_interleave r t = Some (expand_heads (Z.to_nat r) t).
Proof. intros Hr. unfold repeat_interleave. by rewrite decide_False by lia. Qed.

Ltac run_M :=
  unfold result, cache_after, calls, mbind, M_bind, mret, M_ret, lift, gets,
    Attention.n_rep, Attention.call_update_kv, Attention.call_update_state,
    Attention.call_attention, Attention.call_compressor; simpl.

Section attention_facts.
Context {C : Type} `{KVCache C} `{Numerics}.

Implicit Types (self : Attention.t) (c : C).

Lemma compress_prompt_run self input_pos k v attn c :
  Attention.compress_prompt self input_pos k v attn c
  = (Some (Attention.compress_out self input_pos k v attn c), c,
     if bool_decide (max_cache_length c < Z.of_nat (length input_pos))
     then [EvCompress input_pos k v attn] else []).
Proof.
  unfold Attention.compress_prompt, Attention.compress_out. run_M.
  destruct (decide (max_cache_length c < Z.of_nat (length input_pos))).
  - by rewrite bool_decide_eq_true_2.
  - by rewrite bool_decide_eq_false_2.
Qed.

(** C2.  [compress_prompt] calls the prompt compressor exactly when the
    prompt is strictly longer than [max_cache_length]; otherwise it returns
    its four arguments as they are and calls nothing.  The cache is only
    read. *)
Theorem compress_prompt_guard self input_pos k v attn c :
  let r := Attention.compress_prompt self input_pos k v attn c in
  (existsb is_compress (calls r) = true
     ↔ max_cache_length c < Z.of_nat (length input_pos))
  ∧ (result r
     = Some (if bool_decide (max_cache_length c < Z.of_nat (length input_pos))
             then Attention.prompt_compressor self input_pos k v attn
             else (input_pos, k, v, attn)))
  ∧ (calls r
     = if bool_decide (max_cache_length c < Z.of_nat (length input_pos))
       then [EvCompress input_pos k v attn] else [])
  ∧ cache_after r = c.
Proof.
  cbv zeta. rewrite compress_prompt_run. unfold result, calls, cache_after.
  cbn [fst snd]. split; [|done].
  case_bool_decide; simpl; [done|]. split; [discriminate|done].
Qed.

Lemma n_rep_ok self c :
  Attention.groups_ok self →
  Attention.n_rep self c
  = (Some (Attention.n_head self `div` Attention.n_local_heads self), c, []).
Proof.
  intros [Hz _]. unfold Attention.n_rep, lift, floordiv.
  by rewrite decide_False.
Qed.

(** Without key/value heads the division raises: a prefill step stops before
    any call, a decode step after [update_kv]. *)
Lemma forward_raises self x input_ids freqs_cis mask (is_prefill : bool)
    input_pos top c :
  Attention.n_local_heads self = 0 →
  let qkv := project_qkv x freqs_cis in
  Attention.forward self x input_ids freqs_cis mask is_prefill input_pos top c
  = if is_prefill then (None, c, [])
    else (None, (update_kv input_pos qkv.1.2 qkv.2 false input_ids c).2,
          [EvUpdateKV input_pos qkv.1.2 qkv.2 false input_ids]).
Proof.
  intros Hz. cbv zeta. unfold Attention.forward. run_M.
  unfold floordiv. rewrite !(decide_True _ _ Hz).
  by destruct is_prefill.
Qed.

(** A decode step, call by call. *)
Lemma forward_decode_run self x input_ids freqs_cis mask input_pos top c :
  Attention.groups_ok self →
  let qkv := project_qkv x freqs_cis in
  let upd := update_kv input_pos qkv.1.2 qkv.2 false input_ids c in
  let k_rep := expand_heads (Attention.group self) upd.1.1.1 in
  let v_rep := expand_heads (Attention.group self) upd.1.1.2 in
  let attn_mask :=
    match mask with
    | None => Some (expand_heads (Attention.group self) upd.1.2)
    | Some m => Some m
    end in
  let ra := return_attn upd.2 in
  let ya := scaled_dot_product_attention qkv.1.1 k_rep v_rep attn_mask top ra in
  let attn := Attention.pooled self x ya.2 in
  Attention.forward self x input_ids freqs_cis mask false input_pos top c
  = (Some (out_proj ya.1),
     update_state input_pos upd.1.1.1 upd.1.1.2 false attn input_ids upd.2,
     [EvUpdateKV input_pos qkv.1.2 qkv.2 false input_ids;
      EvAttention qkv.1.1 k_rep v_rep attn_mask top ra;
      EvUpdateState input_pos upd.1.1.1 upd.1.1.2 false attn input_ids]).
Proof.
  intros Hok. pose proof Hok as [Hz Hg]. cbv zeta.
  unfold Attention.forward. run_M.
  unfold floordiv. rewrite !(decide_False _ _ Hz). simpl.
  rewrite !repeat_interleave_nonneg by done. simpl.
  unfold Attention.pooled, Attention.group.
  destruct mask as [m|]; simpl;
    destruct (return_attn _); simpl;
    unfold floordiv; rewrite ?(decide_False _ _ Hz); simpl; done.
Qed.

(** A prefill step, call by call. *)
Lemma forward_prefill_run self x input_ids freqs_cis mask input_pos top c :
  Attention.groups_ok self →
  let qkv := project_qkv x freqs_cis in
  let k_rep := expand_heads (Attention.group self) qkv.1.2 in
  let v_rep := expand_heads (Attention.group self) qkv.2 in
  let ra := return_attn c in
  let ya := scaled_dot_product_attention qkv.1.1 k_rep v_rep mask top ra in
  let attn := Attention.pooled self x ya.2 in
  let out := Attention.compress_out self input_pos qkv.1.2 qkv.2 attn c in
  let upd := update_kv out.1.1.1 out.1.1.2 out.1.2 true input_ids c in
  Attention.forward self x input_ids freqs_cis mask true input_pos top c
  = (Some (out_proj ya.1),
     update_state out.1.1.1 out.1.1.2 out.1.2 true out.2 input_ids upd.2,
     EvAttention qkv.1.1 k_rep v_rep mask top ra
     :: (if bool_decide (max_cache_length c < Z.of_nat (length input_pos))
         then [EvCompress input_pos qkv.1.2 qkv.2 attn] else [])
     ++ [EvUpdateKV out.1.1.1 out.1.1.2 out.1.2 true input_ids;
         EvUpdateState out.1.1.1 out.1.1.2 out.1.2 true out.2 input_ids]).
Proof.
  intros Hok. pose proof Hok as [Hz Hg]. cbv zeta.
  unfold Attention.forward. run_M.
  unfold floordiv. rewrite !(decide_False _ _ Hz). simpl.
  rewrite !repeat_interleave_nonneg by done. simpl.
  unfold Attention.pooled, Attention.group.
  assert (match mask with Some m => Some m | None => None end = mask) as ->
    by (by destruct mask).
  destruct (return_attn c); simpl;
    unfold floordiv; rewrite ?(decide_False _ _ Hz); simpl;
    rewrite compress_prompt_run; simpl; by rewrite <-?app_assoc.
Qed.




End attention_facts.

(** *** The step on the slot store *)

Section attention_examples.
Import Fixtures.
Local Existing Instance toy_numerics.

Local Abbreviation k1 := ([[[row [1; 2]]]] : list (list (list (list Qc)))).
Local Abbreviation q1 :=
  ([[[row [1; 2]]; [row [1; 2]]]] : list (list (list (list Qc)))).


(** With no explicit mask, the empty second slot is masked out for both
    query heads. *)
Example decode_mask_from_cache :
  ∃ q k v top ra,
    calls (Attention.forward toy_attention x1 ids1 [] None false [0] 1%Qc
             store_full) !! 1%nat
    = Some (EvAttention q k v (Some [[[[true; false]]; [[true; false]]]])
              top ra).
Proof. eexists _, _, _, _, _. reflexivity. Qed.

(** The decode step fills one slot of the store. *)
Example decode_fills_one_slot :
  SlotStore.occupancy store_full = 0%nat
  ∧ SlotStore.occupancy
      (cache_after (Attention.forward toy_attention x1 ids1 [] None false [0]
                      1%Qc store_full)) = 1%nat.
Proof. split; reflexivity. Qed.


Local Abbreviation k3 :=
  ([[[row [1; 2]; row [3; 4]; row [5; 6]]]] : list (list (list (list Qc)))).


(** A prompt of three positions into a store of two slots: the compressor
    is called on the three, and [update_kv] admits the last two. *)
Example prefill_overflow_order :
  ∃ q k v m top ra attn attn',
    calls (Attention.forward toy_attention x3 ids3 [] None true [0; 1; 2]
             1%Qc store_scored)
    = [EvAttention q k v m top ra;
       EvCompress [0; 1; 2] k3 k3 attn;
       EvUpdateKV [1; 2] [[[row [3; 4]; row [5; 6]]]]
         [[[row [3; 4]; row [5; 6]]]] true ids3;
       EvUpdateState [1; 2] [[[row [3; 4]; row [5; 6]]]]
         [[[row [3; 4]; row [5; 6]]]] true attn' ids3].
Proof. eexists _, _, _, _, _, _, _, _. reflexivity. Qed.

(** A prompt that fits is admitted as it is, and no compressor runs. *)
Example prefill_fits_order :
  ∃ q k v m top ra attn,
    calls (Attention.forward toy_attention x1 ids1 [] None true [0]
             1%Qc store_scored)
    = [EvAttention q k v m top ra;
       EvUpdateKV [0] k1 k1 true ids1;
       EvUpdateState [0] k1 k1 true attn ids1].
Proof. eexists _, _, _, _, _, _, _. reflexivity. Qed.


(** Both settings of the flag, on an overflowing prompt: without it nobody
    is handed weights, with it the compressor is. *)
Example weights_flag_off :
  return_attn store_full = false
  ∧ attn_of <$> calls (Attention.forward toy_attention x3 ids3 [] None true
                         [0; 1; 2] 1%Qc store_full)
    = [None; None; None; None].
Proof. split; reflexivity. Qed.

Example weights_flag_on :
  return_attn store_scored = true
  ∧ (λ e, bool_decide (is_Some (attn_of e)))
      <$> calls (Attention.forward toy_attention x3 ids3 [] None true
                   [0; 1; 2] 1%Qc store_scored)
    = [false; true; false; true].
Proof. split; reflexivity. Qed.

End attention_examples.

(** ** The keys of the statistics dictionary

    [f"{k}_{layer_idx}"], [f"{k}_avg"] and ["cache_memory_gb"] never collide:
    a layer key ends in a digit and determines both [k] and the layer. *)

Section keys.
Local Open Scope nat_scope.

Lemma chars_app s1 s2 : chars (s1 +:+ s2) = chars s1 ++ chars s2.
Proof. induction s1 as [|a s1 IH]; simpl; [done|]. by rewrite <-IH. Qed.

Lemma chars_inj s1 s2 : chars s1 = chars s2 → s1 = s2.
Proof.
  intros Heq. rewrite <-(String.string_of_list_ascii_of_string s1),
    <-(String.string_of_list_ascii_of_string s2). unfold chars in Heq. by rewrite Heq.
Qed.

Lemma pretty_N_char_digit x : digit (pretty_N_char x).
Proof.
  unfold digit, pretty_N_char. simpl.
  repeat case_match; set_solver.
Qed.

Lemma chars_pretty_N_go x s :
  ∃ d, chars (pretty_N_go x s) = d ++ chars s
     ∧ Forall digit d ∧ ((0 < x)%N → d ≠ []).
Proof.
  revert s. induction (N.lt_wf_0 x) as [x _ IH]; intros s.
  destruct (decide (x = 0)%N) as [->|Hx].
  { exists []. rewrite pretty_N_go_0. split_and!; [done|constructor|lia]. }
  rewrite pretty_N_go_step by lia.
  destruct (IH (x `div` 10)%N ltac:(apply N.div_lt; lia)
              (String (pretty_N_char (x `mod` 10)) s)) as (d & Hd & Hdig & _).
  exists (d ++ [pretty_N_char (x `mod` 10)%N]). split_and!.
  - rewrite Hd. simpl. by rewrite <-app_assoc.
  - apply Forall_app. split; [done|].
    apply Forall_singleton, pretty_N_char_digit.
  - intros _. by destruct d.
Qed.

Lemma chars_pretty_nat (n : nat) :
  ∃ d c, chars (pretty n) = d ++ [c] ∧ Forall digit d ∧ digit c.
Proof.
  unfold pretty, pretty_nat, pretty, pretty_N.
  destruct (decide (N.of_nat n = 0)%N) as [_|Hn].
  { exists [], "0"%char. split_and!; [done|constructor|]. unfold digit.
    simpl. set_solver. }
  destruct (chars_pretty_N_go (N.of_nat n) "") as (d & Hd & Hdig & Hne).
  simpl in Hd. rewrite app_nil_r in Hd.
  destruct (exists_last (Hne ltac:(lia))) as (d0 & c & ->).
  apply Forall_app in Hdig as [Hd0 Hc]. rewrite Forall_singleton in Hc.
  exists d0, c. split_and!; done.
Qed.

End keys.

Section key_separation.
Local Open Scope nat_scope.

Lemma sep_unique {A} (x : A) l1 l2 d1 d2 :
  l1 ++ x :: d1 = l2 ++ x :: d2 → x ∉ d1 → x ∉ d2 → l1 = l2 ∧ d1 = d2.
Proof.
  revert l2. induction l1 as [|a l1 IH]; intros [|b l2] Heq Hd1 Hd2;
    simpl in Heq.
  - injection Heq as Htl. by subst.
  - injection Heq as Hhd Htl. destruct Hd1. rewrite Htl.
    apply elem_of_app. right. by left.
  - injection Heq as Hhd Htl. destruct Hd2. rewrite <-Htl.
    apply elem_of_app. right. by left.
  - injection Heq as Hhd Htl. subst b.
    by destruct (IH l2 Htl Hd1 Hd2) as [-> ->].
Qed.

Lemma digit_cases c :
  digit c → c ≠ "_"%char ∧ c ≠ "g"%char ∧ c ≠ "b"%char.
Proof.
  unfold digit; simpl. intros Hc.
  split_and!; intros ->;
    repeat (apply elem_of_cons in Hc as [Hc|Hc]; [discriminate|]);
    by apply elem_of_nil in Hc.
Qed.

Lemma chars_layer_key k i :
  ∃ d c, chars (layer_key k i) = chars k ++ "_"%char :: d ++ [c]
       ∧ chars (pretty i) = d ++ [c]
       ∧ ("_"%char ∉ d ++ [c]) ∧ digit c.
Proof.
  destruct (chars_pretty_nat i) as (d & c & Hd & Hdig & Hc).
  exists d, c. unfold layer_key. rewrite !chars_app, Hd. split_and!; try done.
  intros [Hin|Hin%list_elem_of_singleton]%elem_of_app.
  - rewrite Forall_forall in Hdig. by destruct (digit_cases _ (Hdig _ Hin)).
  - subst. by destruct (digit_cases _ Hc).
Qed.

Lemma layer_key_inj k1 i1 k2 i2 :
  layer_key k1 i1 = layer_key k2 i2 → k1 = k2 ∧ i1 = i2.
Proof.
  intros Heq.
  destruct (chars_layer_key k1 i1) as (d1 & c1 & H1 & Hp1 & Hn1 & _).
  destruct (chars_layer_key k2 i2) as (d2 & c2 & H2 & Hp2 & Hn2 & _).
  rewrite Heq, H2 in H1.
  apply sep_unique in H1 as [Hk Hd]; [|done..].
  split; [by apply chars_inj|].
  apply (inj pretty), chars_inj. by rewrite Hp1, Hp2.
Qed.

Lemma avg_key_inj k1 k2 : avg_key k1 = avg_key k2 → k1 = k2.
Proof.
  unfold avg_key. intros Heq%(f_equal chars). rewrite !chars_app in Heq.
  apply app_inv_tail in Heq. by apply chars_inj.
Qed.

Lemma layer_key_ne_avg k i k' : layer_key k i ≠ avg_key k'.
Proof.
  intros Heq%(f_equal chars).
  destruct (chars_layer_key k i) as (d & c & Hl & _ & _ & Hc).
  rewrite Hl in Heq. unfold avg_key in Heq. rewrite chars_app in Heq.
  change (chars "_avg") with (chars "_av" ++ ["g"%char]) in Heq.
  rewrite (app_assoc (chars k')), app_comm_cons, (app_assoc (chars k)) in Heq.
  apply app_inj_tail in Heq as [_ ->]. by destruct (digit_cases _ Hc) as (_&?&_).
Qed.

Lemma layer_key_ne_mem k i : layer_key k i ≠ "cache_memory_gb".
Proof.
  intros Heq%(f_equal chars).
  destruct (chars_layer_key k i) as (d & c & Hl & _ & _ & Hc).
  rewrite Hl in Heq.
  change (chars "cache_memory_gb")
    with (chars "cache_memory_g" ++ ["b"%char]) in Heq.
  rewrite app_comm_cons, (app_assoc (chars k)) in Heq.
  apply app_inj_tail in Heq as [_ ->]. by destruct (digit_cases _ Hc) as (_&_&?).
Qed.

Lemma avg_key_ne_mem k : avg_key k ≠ "cache_memory_gb".
Proof.
  intros Heq%(f_equal chars). unfold avg_key in Heq. rewrite chars_app in Heq.
  change (chars "_avg") with (chars "_av" ++ ["g"%char]) in Heq.
  change (chars "cache_memory_gb")
    with (chars "cache_memory_g" ++ ["b"%char]) in Heq.
  rewrite (app_assoc (chars k)) in Heq.
  by apply app_inj_tail in Heq as [_ ?].
Qed.

End key_separation.

(** ** [get_cache_stats], key by key *)

Section stats_facts.
Context {C : Type} `{KVCache C}.

Lemma record_fold (i : nat) (stat : gmap string Qc) (acc : stats_acc) :
  let acc' := map_fold (record_stat i) acc stat in
  mem_total acc' = mem_total acc
  ∧ (∀ k, stats acc' !! layer_key k i
          = match stat !! k with
            | Some v => Some v
            | None => stats acc !! layer_key k i
            end)
  ∧ (∀ key, (∀ k, key ≠ layer_key k i) → stats acc' !! key = stats acc !! key)
  ∧ (∀ k, avgs acc' !! k
          = match stat !! k with
            | Some v => Some (default [] (avgs acc !! k) ++ [v])
            | None => avgs acc !! k
            end).
Proof.
  cbv zeta.
  apply (map_fold_weak_ind (λ acc' stat,
    mem_total acc' = mem_total acc
    ∧ (∀ k, stats acc' !! layer_key k i
            = match stat !! k with
              | Some v => Some v
              | None => stats acc !! layer_key k i
              end)
    ∧ (∀ key, (∀ k, key ≠ layer_key k i)
              → stats acc' !! key = stats acc !! key)
    ∧ (∀ k, avgs acc' !! k
            = match stat !! k with
              | Some v => Some (default [] (avgs acc !! k) ++ [v])
              | None => avgs acc !! k
              end))).
  - split_and!; intros; by rewrite ?lookup_empty.
  - intros k0 v0 m r Hk0 (Hmem & Hst & Hother & Havg).
    unfold record_stat; simpl. split_and!.
    + done.
    + intros k. destruct (decide (k = k0)) as [->|Hne].
      * by rewrite !lookup_insert_eq.
      * rewrite lookup_insert_ne by (by intros [? _]%layer_key_inj).
        rewrite (lookup_insert_ne m) by done. apply Hst.
    + intros key Hkey. rewrite lookup_insert_ne by (by apply not_eq_sym).
      by apply Hother.
    + intros k. destruct (decide (k = k0)) as [->|Hne].
      * rewrite !lookup_insert_eq. by rewrite Havg, Hk0.
      * rewrite !lookup_insert_ne by done. apply Havg.
Qed.

Lemma column_cons n layer layers k :
  column n (layer :: layers) k
  = match reported n layer !! k with
    | Some v => v :: column n layers k
    | None => column n layers k
    end.
Proof. done. Qed.

Lemma memory_column_all n (layers : list C) :
  Forall (λ layer, is_Some (layer_statistics n layer !! "cache_memory_gb"))
    layers →
  length (memory_column n layers) = length layers.
Proof.
  induction 1 as [|layer layers [m Hm] _ IH]; [done|].
  unfold memory_column in *. simpl. rewrite Hm. simpl. by f_equal.
Qed.

(** The outer loop, when every layer reports its memory. *)
Lemma stats_loop_run n (layers : list C) : ∀ idx acc,
  Forall (λ layer, is_Some (layer_statistics n layer !! "cache_memory_gb"))
    layers →
  ∃ acc', (stats_loop n idx layers acc).1 = Some acc'
    ∧ mem_total acc' = foldl Qcplus (mem_total acc) (memory_column n layers)
    ∧ (∀ k j, stats acc' !! layer_key k j
              = match (if decide (idx ≤ j)%nat then layers !! (j - idx)%nat
                       else None) ≫= (λ layer, reported n layer !! k) with
                | Some v => Some v
                | None => stats acc !! layer_key k j
                end)
    ∧ (∀ key, (∀ k j, key ≠ layer_key k j)
              → stats acc' !! key = stats acc !! key)
    ∧ (∀ k, avgs acc' !! k
            = match column n layers k with
              | [] => avgs acc !! k
              | vs => Some (default [] (avgs acc !! k) ++ vs)
              end).
Proof.
  induction layers as [|layer layers IH]; intros idx acc Hall.
  { exists acc. simpl. split_and!; try done.
    intros k j. destruct (decide (idx ≤ j)%nat); by rewrite ?lookup_nil. }
  apply Forall_cons in Hall as [[mem Hmem] Hall].
  unfold layer_statistics in Hmem.
  simpl. unfold record_layer. rewrite Hmem. simpl.
  set (acc0 := mk_acc (mem_total acc + mem)%Qc (stats acc) (avgs acc)).
  destruct (record_fold idx (delete "cache_memory_gb"
              (compute_statistics n layer).1) acc0)
    as (Hm1 & Hs1 & Ho1 & Ha1).
  set (acc1 := map_fold (record_stat idx) acc0 _) in *.
  destruct (IH (S idx) acc1 Hall) as (acc' & Hrun & Hm & Hs & Ho & Ha).
  exists acc'. split_and!.
  - by destruct (stats_loop n (S idx) layers acc1) as [[] ?].
  - rewrite Hm, Hm1. unfold memory_column, layer_statistics. simpl.
    by rewrite Hmem.
  - intros k j. rewrite Hs.
    destruct (decide (j = idx)) as [->|Hne].
    + rewrite decide_False by lia. rewrite decide_True by lia.
      rewrite Nat.sub_diag. simpl. rewrite Hs1. done.
    + rewrite Ho1 by (by intros k' [_ ?]%layer_key_inj).
      destruct (decide (S idx ≤ j)%nat), (decide (idx ≤ j)%nat);
        try lia; [|done].
      by replace (j - idx)%nat with (S (j - S idx)) by lia.
  - intros key Hkey. rewrite Ho by done. by apply Ho1.
  - intros k. rewrite Ha, Ha1. unfold reported, layer_statistics.
    destruct (delete "cache_memory_gb" (compute_statistics n layer).1 !! k)
      as [v|]; [|done].
    simpl. destruct (column n layers k); [done|].
    by rewrite <-app_assoc.
Qed.

(** A layer that does not report its memory makes the [pop] raise. *)
Lemma stats_loop_raises n (layers : list C) : ∀ idx acc,
  Exists (λ layer, layer_statistics n layer !! "cache_memory_gb" = None)
    layers →
  (stats_loop n idx layers acc).1 = None.
Proof.
  induction layers as [|layer layers IH]; intros idx acc Hex.
  { by apply Exists_nil in Hex. }
  simpl. unfold record_layer.
  destruct ((compute_statistics n layer).1 !! "cache_memory_gb")
    as [mem|] eqn:Hmem; simpl; [|done].
  apply Exists_cons in Hex as [Hex|Hex].
  { unfold layer_statistics in Hex. congruence. }
  by rewrite IH.
Qed.

Lemma finish_stats_lookup (acc : stats_acc) :
  finish_stats acc !! "cache_memory_gb" = Some (mem_total acc)
  ∧ (∀ k, finish_stats acc !! avg_key k
          = match avgs acc !! k with
            | Some v => Some (py_mean v)
            | None => stats acc !! avg_key k
            end)
  ∧ (∀ key, key ≠ "cache_memory_gb" → (∀ k, key ≠ avg_key k) →
            finish_stats acc !! key = stats acc !! key).
Proof.
  unfold finish_stats. split; [by rewrite lookup_insert_eq|].
  assert (∀ k, "cache_memory_gb" ≠ avg_key k) as Hmem
    by (intros k; apply not_eq_sym, avg_key_ne_mem).
  setoid_rewrite lookup_insert_ne at 1; [|done].
  apply (map_fold_weak_ind (λ (st : gmap string Qc) (m : gmap string (list Qc)),
    (∀ k, st !! avg_key k
          = match m !! k with
            | Some v => Some (py_mean v)
            | None => stats acc !! avg_key k
            end)
    ∧ (∀ key, key ≠ "cache_memory_gb" → (∀ k, key ≠ avg_key k) →
              <["cache_memory_gb" := mem_total acc]> st !! key
              = stats acc !! key))).
  - split; [done|]. intros key Hk _. by rewrite lookup_insert_ne.
  - intros k0 v0 m r Hk0 [Havg Hother]. split.
    + intros k. destruct (decide (k = k0)) as [->|Hne].
      * by rewrite !lookup_insert_eq.
      * rewrite lookup_insert_ne by (by intros ?%avg_key_inj).
        rewrite (lookup_insert_ne m) by done. apply Havg.
    + intros key Hk Hkey. specialize (Hother key Hk Hkey).
      rewrite lookup_insert_ne in Hother |- * by done.
      rewrite lookup_insert_ne by (by apply not_eq_sym). done.
Qed.

Lemma get_cache_stats_run prompt_len gen_len (layers : list C) :
  let n := prompt_len + gen_len in
  Forall (λ layer, is_Some (layer_statistics n layer !! "cache_memory_gb"))
    layers →
  ∃ st, (get_cache_stats prompt_len gen_len layers).1 = Some st
    ∧ st !! "cache_memory_gb" = Some (py_sum (memory_column n layers))
    ∧ (∀ k j, st !! layer_key k j
              = layers !! j ≫= (λ layer, reported n layer !! k))
    ∧ (∀ k, st !! avg_key k
            = match column n layers k with
              | [] => None
              | vs => Some (py_mean vs)
              end)
    ∧ (∀ key, key ≠ "cache_memory_gb" → (∀ k j, key ≠ layer_key k j) →
              (∀ k, key ≠ avg_key k) → st !! key = None).
Proof.
  cbv zeta. intros Hall.
  destruct (stats_loop_run (prompt_len + gen_len) layers 0 (mk_acc 0%Qc ∅ ∅)
              Hall) as (acc & Hrun & Hm & Hs & Ho & Ha).
  destruct (finish_stats_lookup acc) as (Fm & Fa & Fo).
  exists (finish_stats acc). unfold get_cache_stats; simpl.
  rewrite Hrun. simpl. split_and!.
  - done.
  - by rewrite Fm, Hm.
  - intros k j.
    rewrite Fo by auto using layer_key_ne_mem, layer_key_ne_avg.
    rewrite Hs. rewrite decide_True by lia. rewrite Nat.sub_0_r.
    cbn [stats]. rewrite lookup_empty. by destruct (layers !! j ≫= _).
  - intros k. rewrite Fa, Ha. cbn [avgs]. rewrite lookup_empty.
    destruct (column _ layers k); [|done].
    rewrite Ho by (intros ???; by eapply layer_key_ne_avg). done.
  - intros key Hk Hl Hav. rewrite Fo, Ho by done. done.
Qed.

Lemma reported_lookup n (layer : C) k :
  k ≠ "cache_memory_gb" →
  reported n layer !! k = layer_statistics n layer !! k.
Proof. intros Hk. unfold reported. by rewrite lookup_delete_ne. Qed.

Lemma column_full n (layers : list C) k :
  Forall (λ layer, is_Some (reported n layer !! k)) layers →
  Some <$> column n layers k = (λ layer, reported n layer !! k) <$> layers.
Proof.
  induction 1 as [|layer layers [v Hv] _ IH]; [done|].
  rewrite column_cons, Hv, !fmap_cons. by rewrite IH, Hv.
Qed.


Lemma stats_loop_pure n (layers : list C) : ∀ idx acc,
  (∀ m c, (compute_statistics m c).2 = c) →
  (stats_loop n idx layers acc).2 = layers.
Proof.
  induction layers as [|layer layers IH]; intros idx acc Hpure; [done|].
  simpl. destruct (record_layer _ _ _); simpl; rewrite Hpure; [|done].
  by rewrite IH.
Qed.


End stats_facts.

(** ** Reset and statistics on the slot store *)

Section slot_store_facts.
Implicit Types (st : SlotStore.t) (layers : list SlotStore.t).

Lemma occupancy_empty cfg : SlotStore.occupancy (SlotStore.empty cfg) = 0%nat.
Proof.
  unfold SlotStore.occupancy, SlotStore.empty; simpl.
  induction (SlotStore.capacity cfg) as [|n IH]; [done|]. simpl.
  rewrite filter_cons_False by done. exact IH.
Qed.

Lemma occupancy_reset st : SlotStore.occupancy (reset st) = 0%nat.
Proof. apply occupancy_empty. Qed.

Lemma reset_idempotent st : reset (reset st) = reset st.
Proof. done. Qed.

Lemma reset_config st : SlotStore.config (reset st) = SlotStore.config st.
Proof. done. Qed.

Lemma slot_statistics_memory n st :
  layer_statistics n st !! "cache_memory_gb"
  = Some (SlotStore.memory_footprint (SlotStore.config st)).
Proof.
  unfold layer_statistics; simpl.
  rewrite !lookup_insert_ne by done. apply lookup_insert_eq.
Qed.

Lemma slot_statistics_occupancy n st :
  reported n st !! "occupancy" = Some (Qc_of_Z (Z.of_nat (SlotStore.occupancy st))).
Proof.
  rewrite reported_lookup by done. unfold layer_statistics; simpl.
  apply lookup_insert_eq.
Qed.

Lemma slot_statistics_pure n st : (compute_statistics n st).2 = st.
Proof. done. Qed.

Lemma queries_pure_slots layers prompt_len gen_len :
  (get_cache_stats prompt_len gen_len layers).2 = layers.
Proof. unfold get_cache_stats; simpl. by apply stats_loop_pure. Qed.

Lemma slot_memory_reported n layers :
  Forall (λ st, is_Some (layer_statistics n st !! "cache_memory_gb")) layers.
Proof. apply Forall_forall. intros st _. by rewrite slot_statistics_memory. Qed.

Lemma slot_memory_column n layers :
  memory_column n layers = (λ st, SlotStore.memory_footprint (SlotStore.config st)) <$> layers.
Proof.
  induction layers as [|st layers IH]; [done|].
  unfold memory_column in *. cbn [omap list_omap].
  by rewrite slot_statistics_memory, IH.
Qed.

Lemma slot_occupancy_column_reset n layers :
  column n (reset_caches layers) "occupancy"
  = replicate (length layers) 0%Qc.
Proof.
  induction layers as [|st layers IH]; [done|].
  unfold reset_caches in *. rewrite fmap_cons, column_cons.
  rewrite slot_statistics_occupancy. simpl length. simpl replicate.
  f_equal; [|done]. by rewrite occupancy_reset, <-Z2Qc_inj_0.
Qed.

Lemma py_sum_zeros m : py_sum (replicate m 0%Qc) = 0%Qc.
Proof.
  unfold py_sum. induction m as [|m IH]; [done|]. simpl.
  by rewrite Qcplus_0_l.
Qed.

Lemma py_mean_zeros m : py_mean (replicate m 0%Qc) = 0%Qc.
Proof. unfold py_mean. rewrite py_sum_zeros. apply Qcmult_0_l. Qed.


End slot_store_facts.

(** *** The queries on a model of two slot stores *)

Section query_examples.
Import Fixtures.



(** One layer holds an entry, the other none; each has two slots of a
    quarter for one head. *)
Example get_cache_stats_model2 :
  ∃ st, (get_cache_stats 3 1 model2).1 = Some st
    ∧ this <$> st !! "occupancy_0" = Some (1 # 1)%Q
    ∧ this <$> st !! "occupancy_1" = Some (0 # 1)%Q
    ∧ this <$> st !! "occupancy_avg" = Some (1 # 2)%Q
    ∧ this <$> st !! "capacity_avg" = Some (2 # 1)%Q
    ∧ this <$> st !! "cache_memory_gb" = Some (1 # 1)%Q
    ∧ st !! "cache_memory_gb_0" = None
    ∧ st !! "cache_memory_gb_1" = None
    ∧ st !! "cache_memory_gb_avg" = None.
Proof. eexists. split; [reflexivity|]. split_and!; by vm_compute. Qed.



Example reset_statistics_model2 :
  ∃ st, (get_cache_stats 3 1 (reset_caches model2)).1 = Some st
    ∧ this <$> st !! "occupancy_0" = Some (0 # 1)%Q
    ∧ this <$> st !! "occupancy_1" = Some (0 # 1)%Q
    ∧ this <$> st !! "occupancy_avg" = Some (0 # 1)%Q
    ∧ this <$> st !! "evictions_avg" = Some (0 # 1)%Q
    ∧ this <$> st !! "cache_memory_gb" = Some (1 # 1)%Q.
Proof. eexists. split; [reflexivity|]. split_and!; by vm_compute. Qed.

(** The two admission rules on three slots and positions 0 to 4: the window
    keeps 2, 3 and 4 after two evictions, full retention keeps 0, 1 and 2. *)
Example sliding_window_keeps_recent :
  let st := feed (SlotStore.empty (cfg3 SlotStore.SlidingWindow))
              [0; 1; 2; 3; 4] in
  SlotStore.position <$> SlotStore.slots st = [3; 4; 2]
  ∧ SlotStore.mask st = [true; true; true]
  ∧ SlotStore.evictions st = 2%nat.
Proof. split_and!; reflexivity. Qed.

Example full_retention_keeps_first :
  let st := feed (SlotStore.empty (cfg3 SlotStore.FullRetention))
              [0; 1; 2; 3; 4] in
  SlotStore.position <$> SlotStore.slots st = [0; 1; 2]
  ∧ SlotStore.occupancy st = 3%nat
  ∧ SlotStore.evictions st = 0%nat.
Proof. split_and!; reflexivity. Qed.

End query_examples.

(** * Further properties of [model.py] *)

(** What [__post_init__] returns, field by field. *)
Lemma post_init_completes (a : ModelArgs.t) :
  ModelArgs.n_head a ≠ 0 →
  ∃ a', ModelArgs.post_init a = Some a'
    ∧ ModelArgs.head_dim a' = ModelArgs.dim a `div` ModelArgs.n_head a
    ∧ (ModelArgs.n_head a' = ModelArgs.n_head a
       ∧ ModelArgs.dim a' = ModelArgs.dim a
       ∧ ModelArgs.block_size a' = ModelArgs.block_size a
       ∧ ModelArgs.vocab_size a' = ModelArgs.vocab_size a
       ∧ ModelArgs.n_layer a' = ModelArgs.n_layer a
       ∧ ModelArgs.rope_base a' = ModelArgs.rope_base a
       ∧ ModelArgs.norm_eps a' = ModelArgs.norm_eps a
       ∧ ModelArgs.attention_bias a' = ModelArgs.attention_bias a
       ∧ ModelArgs.max_length a' = ModelArgs.max_length a)
    ∧ ModelArgs.n_local_heads a'
      = (if decide (ModelArgs.n_local_heads a = -1) then ModelArgs.n_head a
         else ModelArgs.n_local_heads a)
    ∧ ModelArgs.intermediate_size a'
      = match ModelArgs.intermediate_size a with
        | Some v => Some v
        | None => find_multiple (ModelArgs.n_hidden_of a) 256
        end.
Proof.
  intros Hh. unfold ModelArgs.post_init.
  destruct a as [bs vs nl nh d [m|] nlh hd rb ne ab ml]; simpl in *.
  - destruct (decide (nlh = -1)); simpl;
      (destruct (decide (nh = 0)); [done|]); eexists; split_and!; done.
  - destruct (decide (nlh = -1)); simpl;
      (match goal with
       | |- context [find_multiple ?x 256] =>
           destruct (find_multiple_nonzero x 256 ltac:(done)) as (w & Hw & _);
           rewrite Hw
       end); simpl;
      (destruct (decide (nh = 0)); [done|]); eexists; split_and!; done.
Qed.

(** ** [find_multiple] on all integers *)

(** X1.  For a positive [k] and any integer [n], also zero or negative,
    [find_multiple n k] is the multiple of [k] in the window from [n]
    (included) to [n + k] (excluded). *)
Theorem find_multiple_window (n k : Z) (Hk : 0 < k) :
  ∃ m, find_multiple n k = Some m ∧ (k | m) ∧ n ≤ m < n + k.
Proof.
  unfold find_multiple.
  destruct (decide (k = 0)) as [|_]; [lia|].
  pose proof (Z.mod_pos_bound n k Hk) as Hb.
  pose proof (Z.div_mod n k ltac:(lia)) as Hdm.
  destruct (decide (n `mod` k = 0)) as [Hm|Hm].
  - exists n. split_and!; [done| |lia|lia].
    apply Z.mod_divide; [lia|done].
  - exists (n + k - n `mod` k). split_and!; [done| |lia|lia].
    exists (n `div` k + 1). lia.
Qed.

Lemma find_multiple_window_witness :
  0 < 4 ∧ ∃ m, find_multiple (-7) 4 = Some m ∧ (4 | m) ∧ -7 ≤ m < -7 + 4.
Proof. split; [lia|]. apply (find_multiple_window (-7) 4). lia. Defined.

Example find_multiple_negative : find_multiple (-7) 4 = Some (-4).
Proof. reflexivity. Qed.

(** X2.  Rounding twice is rounding once: the result of [find_multiple] is
    returned unchanged when it is passed back with the same [k]. *)
Theorem find_multiple_idempotent (n k m : Z)
    (Hm : find_multiple n k = Some m) :
  find_multiple m k = Some m.
Proof.
  unfold find_multiple in *.
  destruct (decide (k = 0)) as [|Hk]; [done|].
  assert (m `mod` k = 0) as Hmod.
  { destruct (find_multiple_nonzero n k Hk) as (m' & Hm' & Hdiv).
    unfold find_multiple in Hm'. rewrite decide_False in Hm' by done.
    congruence. }
  by rewrite decide_True.
Qed.

Lemma find_multiple_idempotent_witness :
  find_multiple 10 4 = Some 12 ∧ find_multiple 12 4 = Some 12.
Proof.
  split; [reflexivity|]. apply (find_multiple_idempotent 10 4 12). reflexivity.
Defined.

(** X3.  [find_multiple] raises exactly for [k = 0]; for a negative [k] it
    rounds down instead of up: the result is the multiple of [k] in the
    window from [n + k] (excluded) to [n] (included). *)
Theorem find_multiple_edge (n k : Z) :
  (find_multiple n k = None ↔ k = 0)
  ∧ (k < 0 → ∃ m, find_multiple n k = Some m ∧ (k | m) ∧ n + k < m ≤ n).
Proof.
  split.
  - unfold find_multiple. destruct (decide (k = 0)); [done|].
    by destruct (decide (n `mod` k = 0)).
  - intros Hk. unfold find_multiple.
    destruct (decide (k = 0)) as [|_]; [lia|].
    pose proof (Z.mod_neg_bound n k Hk) as Hb.
    pose proof (Z.div_mod n k ltac:(lia)) as Hdm.
    destruct (decide (n `mod` k = 0)) as [Hm|Hm].
    + exists n. split_and!; [done| |lia|lia].
      apply Z.mod_divide; [lia|done].
    + exists (n + k - n `mod` k). split_and!; [done| |lia|lia].
      exists (n `div` k + 1). lia.
Qed.

Example find_multiple_negative_step : find_multiple 10 (-4) = Some 8.
Proof. reflexivity. Qed.

(** ** [ModelArgs.__post_init__], the other fields *)




(** X6.  [__post_init__] settles: run again on its own result, it returns that
    result unchanged. *)
Theorem post_init_idempotent (a a' : ModelArgs.t)
    (Ha : ModelArgs.post_init a = Some a') :
  ModelArgs.post_init a' = Some a'.
Proof.
  assert (ModelArgs.n_head a ≠ 0) as Hne.
  { intros H0. apply post_init_raises in H0. congruence. }
  destruct (post_init_completes a Hne)
    as (a'' & Ha'' & Hhd & Hfields & Hnl & His).
  rewrite Ha in Ha''. injection Ha'' as <-.
  destruct Hfields as (Hnh & Hd & Hrest).
  assert (ModelArgs.n_head a' ≠ 0) as Hne' by congruence.
  destruct (post_init_completes a' Hne')
    as (b & Hb & Hhd' & Hfields' & Hnl' & His').
  rewrite Hb. f_equal.
  destruct Hfields' as (Hnh' & Hd' & Hbs & Hvs & Hnlay & Hrb & Hne2 & Hab & Hml).
  assert (ModelArgs.intermediate_size b = ModelArgs.intermediate_size a')
    as Hisz.
  { rewrite His'. destruct (ModelArgs.intermediate_size a') eqn:E; [done|].
    exfalso. rewrite His in E.
    destruct (ModelArgs.intermediate_size a); [done|].
    destruct (find_multiple_nonzero (ModelArgs.n_hidden_of a) 256
                ltac:(done)) as (m & Hm & _). congruence. }
  assert (ModelArgs.n_local_heads b = ModelArgs.n_local_heads a') as Hnlh.
  { rewrite Hnl'. destruct (decide (ModelArgs.n_local_heads a' = -1)) as [E|];
      [|done].
    rewrite Hnl in E |- *. rewrite Hnh.
    destruct (decide (ModelArgs.n_local_heads a = -1)); congruence. }
  assert (ModelArgs.head_dim b = ModelArgs.head_dim a') as Hhdd
    by (rewrite Hhd', Hhd; congruence).
  destruct a', b; simpl in *; congruence.
Qed.

Lemma post_init_idempotent_witness :
  ∃ a', ModelArgs.post_init ModelArgs.mistral_7B = Some a'
      ∧ ModelArgs.post_init a' = Some a'.
Proof.
  eexists. split; [reflexivity|].
  exact (post_init_idempotent ModelArgs.mistral_7B _ eq_refl).
Defined.

(** ** [Attention.__init__] against [Attention.forward] *)

(** X7.  On a configuration that went through [__post_init__] and passes the
    assertion of [Attention.__init__], the three sizes [forward] splits the
    fused projection into add up to the width [__init__] gave it, and the
    heads tile the model dimension exactly. *)
Theorem split_sizes_total (a config : ModelArgs.t) (pc : compressor) (t : Z)
    (Ha : ModelArgs.post_init a = Some config)
    (Ht : AttentionSetup.total_head_dim config = Some t) :
  foldr Z.add 0 (AttentionSetup.split_sizes (AttentionSetup.of_config config pc))
  = t
  ∧ ModelArgs.n_head config * ModelArgs.head_dim config = ModelArgs.dim config.
Proof.
  assert (ModelArgs.n_head a ≠ 0) as Hne.
  { intros H0. apply post_init_raises in H0. congruence. }
  destruct (post_init_completes a Hne) as (a' & Ha' & Hhd & (Hnh & Hd & _) & _).
  rewrite Ha in Ha'. injection Ha' as <-.
  unfold AttentionSetup.total_head_dim in Ht.
  destruct (decide (ModelArgs.n_head config = 0)); [done|].
  destruct (decide (ModelArgs.dim config `mod` ModelArgs.n_head config = 0))
    as [Hmod|]; [|done].
  injection Ht as <-.
  assert (ModelArgs.n_head config * ModelArgs.head_dim config
          = ModelArgs.dim config) as Htile.
  { rewrite Hhd, <-Hnh, <-Hd.
    pose proof (Z.div_mod (ModelArgs.dim config) (ModelArgs.n_head config)
                  ltac:(done)). lia. }
  split; [|done]. unfold AttentionSetup.split_sizes; simpl. lia.
Qed.

Lemma split_sizes_total_witness :
  ∃ config,
    ModelArgs.post_init ModelArgs.mistral_7B = Some config
    ∧ AttentionSetup.total_head_dim config = Some 6144
    ∧ foldr Z.add 0
        (AttentionSetup.split_sizes
           (AttentionSetup.of_config config (Fixtures.recent_compressor 2)))
      = 6144
    ∧ ModelArgs.n_head config * ModelArgs.head_dim config
      = ModelArgs.dim config.
Proof.
  eexists. split; [reflexivity|]. split; [reflexivity|].
  exact (split_sizes_total ModelArgs.mistral_7B _ (Fixtures.recent_compressor 2)
           6144 eq_refl eq_refl).
Defined.

(** A configuration that skipped [__post_init__] keeps the default
    [head_dim] of 64, and the sizes no longer add up. *)
Example split_sizes_without_post_init :
  let config := foldl Registry.set_kwarg ModelArgs.default
                  [Registry.n_head 6; Registry.dim 288;
                   Registry.n_local_heads 6] in
  AttentionSetup.total_head_dim config = Some 1152
  ∧ foldr Z.add 0
      (AttentionSetup.split_sizes
         (AttentionSetup.of_config config (Fixtures.recent_compressor 2)))
    = 1056.
Proof. split; reflexivity. Qed.

(** ** [ModelArgs.from_name] *)

Section registry_facts.
Import Registry.
Local Open Scope nat_scope.

Lemma prefix_spec (s t : string) :
  String.prefix s t = true ↔ ∃ b, t = s +:+ b.
Proof.
  revert t. induction s as [|c s IH]; intros t.
  - split; [intros _; exists t; reflexivity|intros _; by destruct t].
  - destruct t as [|c' t]; simpl;
      [split; [done|intros [b Hb]; discriminate]|].
    destruct (Ascii.ascii_dec c c') as [->|Hne].
    + rewrite IH. split; intros [b Hb]; exists b.
      * rewrite Hb. reflexivity.
      * change (String c' t = String c' (s +:+ b)) in Hb. by injection Hb.
    + split; [done|]. intros [b Hb].
      change (String c' t = String c (s +:+ b)) in Hb. injection Hb as <- _.
      done.
Qed.

(** [str_in] is the substring test. *)
Lemma str_in_spec (needle hay : string) :
  str_in needle hay = true ↔ ∃ a b, hay = a +:+ needle +:+ b.
Proof.
  induction hay as [|c hay IH].
  - change (str_in needle "") with (String.prefix needle "" || false).
    rewrite orb_false_r, prefix_spec. split.
    + intros [b Hb]. by exists "", b.
    + intros (a & b & Hab). destruct a; [by exists b|done].
  - change (str_in needle (String c hay))
      with (String.prefix needle (String c hay) || str_in needle hay).
    rewrite orb_true_iff, prefix_spec, IH. split.
    + intros [[b Hb]|(a & b & Hab)].
      * by exists "", b.
      * exists (String c a), b. rewrite Hab. reflexivity.
    + intros (a & b & Hab). destruct a as [|c' a].
      * left. by exists b.
      * right. exists a, b.
        change (String c hay = String c' (a +:+ needle +:+ b)) in Hab.
        by injection Hab.
Qed.

Lemma insert_by_len_elem (x y : string) (l : list string) :
  y ∈ insert_by_len x l ↔ y = x ∨ y ∈ l.
Proof.
  induction l as [|z l IH]; simpl.
  - rewrite list_elem_of_singleton, elem_of_nil. tauto.
  - destruct (String.length z <=? String.length x);
      rewrite !elem_of_cons; [done|]. rewrite IH. tauto.
Qed.

Lemma sort_by_len_elem (y : string) (l : list string) :
  y ∈ sort_by_len l ↔ y ∈ l.
Proof.
  induction l as [|x l IH]; [done|]. unfold sort_by_len in *. simpl.
  rewrite insert_by_len_elem, elem_of_cons, IH. done.
Qed.

Lemma insert_by_len_length (x : string) (l : list string) :
  length (insert_by_len x l) = S (length l).
Proof.
  induction l as [|z l IH]; [done|]. simpl.
  destruct (String.length z <=? String.length x); simpl; by rewrite ?IH.
Qed.

Lemma sort_by_len_length (l : list string) :
  length (sort_by_len l) = length l.
Proof.
  induction l as [|x l IH]; [done|]. unfold sort_by_len in *. simpl.
  by rewrite insert_by_len_length, IH.
Qed.

Lemma insert_by_len_sorted (x : string) (l : list string) :
  StronglySorted (λ a b, String.length b ≤ String.length a) l →
  StronglySorted (λ a b, String.length b ≤ String.length a)
    (insert_by_len x l).
Proof.
  induction 1 as [|z l Hs IH Hall]; simpl; [repeat constructor|].
  destruct (String.length z <=? String.length x) eqn:Hle.
  - apply Nat.leb_le in Hle. constructor; [by constructor|].
    constructor; [done|]. eapply Forall_impl; [done|]. simpl. intros; lia.
  - apply Nat.leb_gt in Hle. constructor; [done|].
    apply Forall_forall. intros y [->|Hy]%insert_by_len_elem; [lia|].
    rewrite Forall_forall in Hall. by apply Hall.
Qed.

Lemma sort_by_len_sorted (l : list string) :
  StronglySorted (λ a b, String.length b ≤ String.length a) (sort_by_len l).
Proof.
  induction l as [|x l IH]; [constructor|].
  unfold sort_by_len in *. simpl. by apply insert_by_len_sorted.
Qed.

Lemma item_elem {A} (key : string) (d : list (string * A)) (v : A) :
  item key d = Some v → (key, v) ∈ d.
Proof.
  induction d as [|[k w] d IH]; [done|]. simpl.
  destruct (decide (k = key)) as [->|_].
  - intros [= ->]. by left.
  - intros Hd. right. by apply IH.
Qed.

Lemma item_none {A} (key : string) (d : list (string * A)) :
  item key d = None ↔ key ∉ fst <$> d.
Proof.
  induction d as [|[k w] d IH]; simpl.
  - split; [intros _ ?%elem_of_nil; done|done].
  - rewrite not_elem_of_cons. destruct (decide (k = key)) as [->|Hne].
    + split; [done|]. by intros [? _].
    + rewrite IH. split; [by split|by intros [_ ?]].
Qed.

(** The candidates of the fuzzy search, sorted when there are several:
    either a single one, or the first is strictly longer than all others. *)
Lemma fuzzy_choice (configs : list (string * list kwarg)) (name : string)
    (config : list string) :
  best_first (filter (λ c, matches name c) (fst <$> configs)) = Some config →
  ∀ c0, head config = Some c0 →
    c0 ∈ fst <$> configs ∧ matches name c0 = true
    ∧ ∀ key, key ∈ fst <$> configs → matches name key = true → key ≠ c0 →
        String.length key < String.length c0.
Proof.
  set (cands := filter (λ c, matches name c) (fst <$> configs)).
  assert (∀ key, key ∈ cands ↔ key ∈ fst <$> configs ∧ matches name key = true)
    as Hcands.
  { intros key. unfold cands. rewrite list_elem_of_filter.
    rewrite Is_true_true. tauto. }
  clearbody cands. unfold best_first.
  destruct (decide (1 < length cands)) as [Hlen|Hlen].
  - pose proof (sort_by_len_sorted cands) as Hsorted.
    pose proof (sort_by_len_elem) as Helem.
    destruct (sort_by_len cands) as [|c0 [|c1 rest]] eqn:Hs.
    + intros [= <-] c0 Hc0. done.
    + intros [= <-] c0' [= <-].
      assert (length (sort_by_len cands) = 1) as Hl by (by rewrite Hs).
      rewrite sort_by_len_length in Hl. lia.
    + destruct (decide (String.length c0 ≠ String.length c1)) as [Hne|];
        [|done].
      intros [= <-] c0' [= <-].
      assert (c0 ∈ cands) as Hin0.
      { apply (Helem c0 cands). rewrite Hs. by left. }
      apply Hcands in Hin0 as [Hk0 Hm0]. split_and!; [done..|].
      intros key Hk Hm Hkne.
      assert (key ∈ c1 :: rest) as Hin.
      { assert (key ∈ c0 :: c1 :: rest) as Hin'.
        { rewrite <-Hs. apply Helem, Hcands. done. }
        apply elem_of_cons in Hin' as [?|?]; done. }
      apply StronglySorted_inv in Hsorted as [Htail Hall0].
      apply StronglySorted_inv in Htail as [_ Hall1].
      apply Forall_cons in Hall0 as [Hc1 _].
      apply elem_of_cons in Hin as [->|Hin]; [lia|].
      rewrite Forall_forall in Hall1. specialize (Hall1 key Hin). lia.
  - intros [= <-] c0 Hc0.
    destruct cands as [|c [|c' rest]]; simpl in *; [done| |lia].
    injection Hc0 as ->.
    destruct (proj1 (Hcands c0) ltac:(by left)) as [Hk0 Hm0].
    split_and!; [done..|].
    intros key Hk Hm Hkne.
    assert (key ∈ [c0]) as Hin by (apply Hcands; done).
    by apply list_elem_of_singleton in Hin.
Qed.

End registry_facts.

Section from_name_facts.
Import Registry.
Local Open Scope nat_scope.

(** X8.  A name that is no key of the dictionary resolves, when it resolves
    at all, to the entry of a key it contains (as it is or in upper case), and
    that key is strictly longer than every other key it contains. *)
Theorem from_name_longest_match (configs : list (string * list kwarg))
    (name : string) (r : ModelArgs.t)
    (Hnot : item name configs = None)
    (Hr : from_name_in configs name = Some r) :
  ∃ key kwargs,
    (key, kwargs) ∈ configs
    ∧ matches name key = true
    ∧ construct kwargs = Some r
    ∧ ∀ key', key' ∈ fst <$> configs → matches name key' = true →
        key' ≠ key → String.length key' < String.length key.
Proof.
  unfold from_name_in in Hr. rewrite Hnot in Hr.
  apply bind_Some in Hr as (config & Hconfig & Hr).
  apply bind_Some in Hr as (c0 & Hc0 & Hr).
  apply bind_Some in Hr as (kwargs & Hitem & Hr).
  destruct (fuzzy_choice configs name config Hconfig c0 Hc0)
    as (Hk & Hm & Hlong).
  exists c0, kwargs. split_and!; [|done..]. by apply item_elem.
Qed.

Lemma from_name_longest_match_witness :
  item "mistralai/Mistral-7B-Instruct-v0.2" transformer_configs = None
  ∧ ∃ r, from_name "mistralai/Mistral-7B-Instruct-v0.2" = Some r
      ∧ ∃ key kwargs,
          (key, kwargs) ∈ transformer_configs
          ∧ matches "mistralai/Mistral-7B-Instruct-v0.2" key = true
          ∧ construct kwargs = Some r
          ∧ ∀ key', key' ∈ fst <$> transformer_configs →
              matches "mistralai/Mistral-7B-Instruct-v0.2" key' = true →
              key' ≠ key → String.length key' < String.length key.
Proof.
  split; [reflexivity|]. eexists. split; [vm_compute; reflexivity|].
  apply (from_name_longest_match transformer_configs
           "mistralai/Mistral-7B-Instruct-v0.2"); [reflexivity|].
  vm_compute. reflexivity.
Defined.

Lemma two_elems_length {A} (x y : A) (l : list A) :
  x ≠ y → x ∈ l → y ∈ l → 1 < length l.
Proof.
  intros Hne Hx Hy. destruct l as [|a [|b l]]; simpl; [|exfalso|lia].
  - by apply elem_of_nil in Hx.
  - apply list_elem_of_singleton in Hx, Hy. congruence.
Qed.

(** X9.  A name that is no key and contains no key makes [from_name] raise
    (the list of candidates is empty), and so does a name whose two longest
    candidates have the same length (the assertion fails). *)
Theorem from_name_raises (configs : list (string * list kwarg))
    (name : string) (Hnot : item name configs = None) :
  ((∀ key, key ∈ fst <$> configs → matches name key = false) →
   from_name_in configs name = None)
  ∧ (∀ k1 k2,
       k1 ≠ k2 → k1 ∈ fst <$> configs → k2 ∈ fst <$> configs →
       matches name k1 = true → matches name k2 = true →
       String.length k1 = String.length k2 →
       (∀ key, key ∈ fst <$> configs → matches name key = true →
          String.length key ≤ String.length k1) →
       from_name_in configs name = None).
Proof.
  unfold from_name_in. rewrite Hnot.
  set (cands := filter (λ c, matches name c) (fst <$> configs)).
  assert (∀ key, key ∈ cands ↔ key ∈ fst <$> configs ∧ matches name key = true)
    as Hcands.
  { intros key. unfold cands. rewrite list_elem_of_filter.
    rewrite Is_true_true. tauto. }
  clearbody cands. split.
  - intros Hnone. destruct cands as [|c cands]; [done|].
    destruct (proj1 (Hcands c) ltac:(by left)) as [Hk Hm].
    rewrite Hnone in Hm by done. done.
  - intros k1 k2 Hne Hk1 Hk2 Hm1 Hm2 Hlen Hmax.
    assert (k1 ∈ cands) as Hin1 by (by apply Hcands).
    assert (k2 ∈ cands) as Hin2 by (by apply Hcands).
    unfold best_first. rewrite decide_True by (by eapply two_elems_length).
    pose proof (sort_by_len_sorted cands) as Hsorted.
    pose proof (sort_by_len_length cands) as Hslen.
    pose proof (two_elems_length _ _ _ Hne Hin1 Hin2) as Htwo.
    apply (sort_by_len_elem k1) in Hin1. apply (sort_by_len_elem k2) in Hin2.
    assert (∀ key, key ∈ sort_by_len cands →
                   String.length key ≤ String.length k1) as Hmax'.
    { intros key [Hk Hm]%sort_by_len_elem%Hcands. by apply Hmax. }
    destruct (sort_by_len cands) as [|c0 [|c1 rest]]; simpl in *; [lia..|].
    apply StronglySorted_inv in Hsorted as [Htail Hall0].
    apply StronglySorted_inv in Htail as [_ Hall1].
    rewrite Forall_forall in Hall0, Hall1.
    assert (String.length c0 = String.length k1) as Hc0.
    { pose proof (Hmax' c0 ltac:(by left)).
      apply elem_of_cons in Hin1 as [->|Hin1]; [done|].
      specialize (Hall0 _ Hin1). lia. }
    assert (∀ k, k ∈ c1 :: rest → String.length k = String.length k1 →
                 String.length c1 = String.length k1) as Hsecond.
    { intros k Hk Hkl. pose proof (Hall0 c1 ltac:(by left)).
      apply elem_of_cons in Hk as [->|Hk]; [done|].
      specialize (Hall1 _ Hk). lia. }
    assert (String.length c1 = String.length k1) as Hc1.
    { apply elem_of_cons in Hin1 as [E1|Hin1];
        [|by apply (Hsecond k1)].
      apply elem_of_cons in Hin2 as [E2|Hin2]; [congruence|].
      by apply (Hsecond k2). }
    rewrite decide_False by lia. done.
Qed.

Lemma from_name_raises_witness :
  item "13B-30B" transformer_configs = None
  ∧ from_name "13B-30B" = None
  ∧ from_name "gpt2" = None.
Proof.
  split; [reflexivity|]. split.
  - refine (proj2 (from_name_raises transformer_configs "13B-30B" eq_refl)
              "13B" "30B" _ _ _ eq_refl eq_refl eq_refl _).
    + discriminate.
    + apply list_elem_of_In. vm_compute. tauto.
    + apply list_elem_of_In. vm_compute. tauto.
    + intros key Hk%list_elem_of_In Hm. vm_compute in Hk.
      repeat (destruct Hk as [<-|Hk]; [by vm_compute in Hm |- *; lia|]).
      done.
  - apply (proj1 (from_name_raises transformer_configs "gpt2" eq_refl)).
    intros key Hk%list_elem_of_In. vm_compute in Hk.
    repeat (destruct Hk as [<-|Hk]; [reflexivity|]). done.
Defined.

(** Names as they come from a model hub. *)
Example from_name_hub_names :
  from_name "mistralai/Mistral-7B-Instruct-v0.2" = construct
    [n_layer 32; n_head 32; n_local_heads 8; dim 4096;
     intermediate_size 14336; vocab_size 32000]
  ∧ ModelArgs.dim <$> from_name "meta-llama/Llama-2-13b-chat-hf" = Some 5120%Z
  ∧ ModelArgs.vocab_size <$> from_name "meta-llama/Meta-Llama-3.1-8B-Instruct"
    = Some 128256%Z
  ∧ ModelArgs.n_head <$> from_name "Qwen/Qwen2-0.5B-Instruct" = Some 14%Z.
Proof. split_and!; reflexivity. Qed.

End from_name_facts.

(** X10.  Every entry of [transformer_configs] is found under its own name,
    also when the name contains a shorter key, and constructs; the
    configuration it gives passes the assertion of [Attention.__init__], and
    its key/value heads divide its query heads into groups of at least
    one. *)
Theorem registry_entries_construct :
  Forall (λ entry : string * list Registry.kwarg,
            ∃ a, Registry.from_name entry.1 = Some a
               ∧ Registry.construct entry.2 = Some a
               ∧ ModelArgs.dim a `mod` ModelArgs.n_head a = 0
               ∧ is_Some (AttentionSetup.total_head_dim a)
               ∧ 0 < ModelArgs.n_local_heads a
               ∧ ModelArgs.n_head a `mod` ModelArgs.n_local_heads a = 0
               ∧ ∀ pc, Attention.groups_ok (AttentionSetup.of_config a pc))
    Registry.transformer_configs.
Proof.
  unfold Registry.transformer_configs.
  repeat (apply Forall_cons; split;
          [eexists; split; [vm_compute; reflexivity|];
           split_and!; [reflexivity|reflexivity|by eexists|done|reflexivity|];
           intros pc; split; [discriminate|by vm_compute]|]).
  apply Forall_nil. done.
Qed.

(** ** [Attention.load_hook] *)

Section load_hook_facts.
Context {W : Type} (cat : list W → option W).

Implicit Types (prefix : string) (sd : gmap string W).

(** Two names with suffixes of one length are equal only if the prefixes and
    the suffixes are. *)
Lemma app_suffix_inj (p1 p2 s1 s2 : string) :
  p1 +:+ s1 = p2 +:+ s2 → String.length s1 = String.length s2 →
  p1 = p2 ∧ s1 = s2.
Proof.
  intros Heq%(f_equal chars) Hlen. rewrite !chars_app in Heq.
  apply app_inj_2 in Heq as [H1 H2].
  - split; by apply chars_inj.
  - clear Heq. revert s2 Hlen. induction s1 as [|c s1 IH]; intros [|c' s2];
      simpl; try done. intros [= Hl]. f_equal. by apply IH.
Qed.

Lemma hook_keys_distinct prefix :
  prefix +:+ "wq.weight" ≠ prefix +:+ "wk.weight"
  ∧ prefix +:+ "wq.weight" ≠ prefix +:+ "wv.weight"
  ∧ prefix +:+ "wk.weight" ≠ prefix +:+ "wv.weight"
  ∧ prefix +:+ "wqkv.weight" ≠ prefix +:+ "wq.weight"
  ∧ prefix +:+ "wqkv.weight" ≠ prefix +:+ "wk.weight"
  ∧ prefix +:+ "wqkv.weight" ≠ prefix +:+ "wv.weight".
Proof. split_and!; intros Heq%(inj (String.app prefix)); discriminate. Qed.

(** The fused name of one module is no name of another. *)
Lemma hook_fused_key_other (p1 p2 x : string) :
  String.length x = 9%nat →
  (x = "wq.weight" ∨ x = "wk.weight" ∨ x = "wv.weight") →
  p1 +:+ "wqkv.weight" ≠ p2 +:+ x.
Proof.
  intros Hlen Hx Heq.
  change (p1 +:+ "wqkv.weight") with (p1 +:+ ("wq" +:+ "kv.weight")) in Heq.
  assert (p1 +:+ ("wq" +:+ "kv.weight") = (p1 +:+ "wq") +:+ "kv.weight") as Hassoc.
  { apply chars_inj. rewrite !chars_app. by rewrite app_assoc. }
  rewrite Hassoc in Heq.
  apply app_suffix_inj in Heq as [_ Hs]; [|by rewrite Hlen].
  destruct Hx as [->|[->| ->]]; discriminate.
Qed.

(** What a run of the hook that does not raise has done: nothing, or the
    fusion. *)
Lemma load_hook_ok prefix sd sd' :
  load_hook cat prefix sd = (Some (), sd') ↔
  (sd !! (prefix +:+ "wq.weight") = None ∧ sd' = sd)
  ∨ (∃ wq wk wv w,
       sd !! (prefix +:+ "wq.weight") = Some wq
       ∧ sd !! (prefix +:+ "wk.weight") = Some wk
       ∧ sd !! (prefix +:+ "wv.weight") = Some wv
       ∧ cat [wq; wk; wv] = Some w
       ∧ sd' = <[prefix +:+ "wqkv.weight" := w]>
                 (delete (prefix +:+ "wv.weight")
                    (delete (prefix +:+ "wk.weight")
                       (delete (prefix +:+ "wq.weight") sd)))).
Proof.
  destruct (hook_keys_distinct prefix) as (Hqk & Hqv & Hkv & _).
  unfold load_hook.
  destruct (sd !! (prefix +:+ "wq.weight")) as [wq|] eqn:Hwq.
  - rewrite lookup_delete_ne by done.
    destruct (sd !! (prefix +:+ "wk.weight")) as [wk|] eqn:Hwk.
    + rewrite !lookup_delete_ne by done.
      destruct (sd !! (prefix +:+ "wv.weight")) as [wv|] eqn:Hwv.
      * destruct (cat [wq; wk; wv]) as [w|] eqn:Hcat.
        -- split.
           ++ intros [= <-]. right. by exists wq, wk, wv, w.
           ++ intros [[? _]|(?&?&?&?&?&?&?&?&->)]; [done|]. by simplify_eq.
        -- split; [done|].
           intros [[? _]|(?&?&?&?&?&?&?&?&->)]; [done|]. by simplify_eq.
      * split; [done|]. intros [[? _]|(?&?&?&?&?&?&?&?&->)]; done.
    + split; [done|]. intros [[? _]|(?&?&?&?&?&?&?&?&->)]; done.
  - split.
    + intros [= <-]. by left.
    + intros [[_ ->]|(?&?&?&?&?&_)]; done.
Qed.

(** X11.  A dictionary that holds the three projections of a module has them
    replaced by their concatenation, in the order query, key, value, under
    the fused name; every other entry stays as it is. *)
Theorem load_hook_fuses prefix sd wq wk wv w
    (Hq : sd !! (prefix +:+ "wq.weight") = Some wq)
    (Hk : sd !! (prefix +:+ "wk.weight") = Some wk)
    (Hv : sd !! (prefix +:+ "wv.weight") = Some wv)
    (Hcat : cat [wq; wk; wv] = Some w) :
  ∃ sd', load_hook cat prefix sd = (Some (), sd')
    ∧ sd' !! (prefix +:+ "wqkv.weight") = Some w
    ∧ sd' !! (prefix +:+ "wq.weight") = None
    ∧ sd' !! (prefix +:+ "wk.weight") = None
    ∧ sd' !! (prefix +:+ "wv.weight") = None
    ∧ ∀ key, key ≠ prefix +:+ "wqkv.weight" → key ≠ prefix +:+ "wq.weight" →
        key ≠ prefix +:+ "wk.weight" → key ≠ prefix +:+ "wv.weight" →
        sd' !! key = sd !! key.
Proof.
  destruct (hook_keys_distinct prefix) as (Hqk & Hqv & Hkv & Hfq & Hfk & Hfv).
  eexists. split.
  { apply load_hook_ok. right. by exists wq, wk, wv, w. }
  split_and!.
  - apply lookup_insert_eq.
  - rewrite lookup_insert_ne by done.
    rewrite !lookup_delete_ne by done. apply lookup_delete_eq.
  - rewrite lookup_insert_ne by done.
    rewrite lookup_delete_ne by done. apply lookup_delete_eq.
  - rewrite lookup_insert_ne by done. apply lookup_delete_eq.
  - intros key H1 H2 H3 H4.
    rewrite lookup_insert_ne by done. by rewrite !lookup_delete_ne.
Qed.

(** X12.  Running the hook again on what a first run left changes nothing. *)
Theorem load_hook_idempotent prefix sd sd'
    (Hrun : load_hook cat prefix sd = (Some (), sd')) :
  load_hook cat prefix sd' = (Some (), sd').
Proof.
  destruct (hook_keys_distinct prefix) as (Hqk & Hqv & Hkv & Hfq & Hfk & Hfv).
  apply load_hook_ok. left. split; [|done].
  apply load_hook_ok in Hrun as [[Hnone ->]|(wq & wk & wv & w & _ & _ & _ & _ & ->)];
    [done|].
  rewrite lookup_insert_ne by done.
  rewrite !lookup_delete_ne by done. apply lookup_delete_eq.
Qed.

(** X13.  The hook raises exactly when the query projection is there and the
    key or the value projection is not, or their shapes do not fit; the
    dictionary has then lost the query projection all the same. *)
Theorem load_hook_raises prefix sd :
  ((load_hook cat prefix sd).1 = None ↔
   ∃ wq, sd !! (prefix +:+ "wq.weight") = Some wq
       ∧ (sd !! (prefix +:+ "wk.weight") = None
          ∨ sd !! (prefix +:+ "wv.weight") = None
          ∨ ∃ wk wv, sd !! (prefix +:+ "wk.weight") = Some wk
                   ∧ sd !! (prefix +:+ "wv.weight") = Some wv
                   ∧ cat [wq; wk; wv] = None))
  ∧ ((load_hook cat prefix sd).1 = None →
     (load_hook cat prefix sd).2 !! (prefix +:+ "wq.weight") = None
     ∧ (load_hook cat prefix sd).2 !! (prefix +:+ "wqkv.weight")
       = sd !! (prefix +:+ "wqkv.weight")).
Proof.
  destruct (hook_keys_distinct prefix) as (Hqk & Hqv & Hkv & Hfq & Hfk & Hfv).
  unfold load_hook.
  destruct (sd !! (prefix +:+ "wq.weight")) as [wq|] eqn:Hwq.
  2:{ split; [|done]. split; [done|]. by intros (? & ? & _). }
  rewrite lookup_delete_ne by done.
  destruct (sd !! (prefix +:+ "wk.weight")) as [wk|] eqn:Hwk.
  2:{ simpl. split; [split; [intros _; eexists; eauto|done]|].
      intros _. split;
        repeat (rewrite lookup_delete_eq || (rewrite lookup_delete_ne by done));
        done. }
  rewrite !lookup_delete_ne by done.
  destruct (sd !! (prefix +:+ "wv.weight")) as [wv|] eqn:Hwv.
  2:{ simpl. split; [split; [intros _; eexists; eauto|done]|].
      intros _. split;
        repeat (rewrite lookup_delete_eq || (rewrite lookup_delete_ne by done));
        done. }
  destruct (cat [wq; wk; wv]) as [w|] eqn:Hcat; simpl.
  - split; [|done]. split; [done|].
    intros (wq' & [= <-] & [?|[?|(wk' & wv' & [= <-] & [= <-] & Hc)]]);
      congruence.
  - split.
    + split; [|done]. intros _. exists wq. split; [done|].
      right; right. by exists wk, wv.
    + intros _. split;
        repeat (rewrite lookup_delete_eq || (rewrite lookup_delete_ne by done));
        done.
Qed.

(** The names of two modules never meet. *)
Lemma hook_keys_disjoint (p1 p2 : string) :
  p1 ≠ p2 →
  p1 +:+ "wq.weight" ≠ p2 +:+ "wq.weight"
  ∧ p1 +:+ "wq.weight" ≠ p2 +:+ "wk.weight"
  ∧ p1 +:+ "wq.weight" ≠ p2 +:+ "wv.weight"
  ∧ p1 +:+ "wq.weight" ≠ p2 +:+ "wqkv.weight"
  ∧ p1 +:+ "wk.weight" ≠ p2 +:+ "wq.weight"
  ∧ p1 +:+ "wk.weight" ≠ p2 +:+ "wk.weight"
  ∧ p1 +:+ "wk.weight" ≠ p2 +:+ "wv.weight"
  ∧ p1 +:+ "wk.weight" ≠ p2 +:+ "wqkv.weight"
  ∧ p1 +:+ "wv.weight" ≠ p2 +:+ "wq.weight"
  ∧ p1 +:+ "wv.weight" ≠ p2 +:+ "wk.weight"
  ∧ p1 +:+ "wv.weight" ≠ p2 +:+ "wv.weight"
  ∧ p1 +:+ "wv.weight" ≠ p2 +:+ "wqkv.weight"
  ∧ p1 +:+ "wqkv.weight" ≠ p2 +:+ "wq.weight"
  ∧ p1 +:+ "wqkv.weight" ≠ p2 +:+ "wk.weight"
  ∧ p1 +:+ "wqkv.weight" ≠ p2 +:+ "wv.weight"
  ∧ p1 +:+ "wqkv.weight" ≠ p2 +:+ "wqkv.weight".
Proof.
  intros Hne.
  assert (∀ q1 q2 x y, q1 ≠ q2 → String.length x = String.length y →
                       q1 +:+ x ≠ q2 +:+ y) as Hsame.
  { intros q1 q2 x y Hq Hl Heq. by apply app_suffix_inj in Heq as [? _]. }
  split_and!;
    first [ by apply Hsame
          | by apply hook_fused_key_other; [|auto]
          | apply not_eq_sym; by apply hook_fused_key_other; [|auto] ].
Qed.

Lemma fuse_commute (a1 k1 v1 q1 a2 k2 v2 q2 : string) (w1 w2 : W) sd :
  a1 ≠ a2 → a1 ≠ k2 → a1 ≠ v2 → a1 ≠ q2 →
  k1 ≠ a2 → k1 ≠ k2 → k1 ≠ v2 → k1 ≠ q2 →
  v1 ≠ a2 → v1 ≠ k2 → v1 ≠ v2 → v1 ≠ q2 →
  q1 ≠ a2 → q1 ≠ k2 → q1 ≠ v2 → q1 ≠ q2 →
  q1 ≠ a1 → q1 ≠ k1 → q1 ≠ v1 → q2 ≠ a2 → q2 ≠ k2 → q2 ≠ v2 →
  <[q1 := w1]> (delete v1 (delete k1 (delete a1
     (<[q2 := w2]> (delete v2 (delete k2 (delete a2 sd)))))))
  = <[q2 := w2]> (delete v2 (delete k2 (delete a2
     (<[q1 := w1]> (delete v1 (delete k1 (delete a1 sd))))))).
Proof.
  intros. apply map_eq. intros key.
  repeat first [rewrite lookup_insert | rewrite lookup_delete | case_decide];
    simplify_eq; done.
Qed.

(** X14.  The hooks of two modules do not interfere: when running the first
    and then the second does not raise, neither does the other order, and
    both leave the same dictionary. *)
Theorem load_hook_commute (p1 p2 : string) sd sd1 sd12
    (Hne : p1 ≠ p2)
    (H1 : load_hook cat p1 sd = (Some (), sd1))
    (H2 : load_hook cat p2 sd1 = (Some (), sd12)) :
  ∃ sd2, load_hook cat p2 sd = (Some (), sd2)
       ∧ load_hook cat p1 sd2 = (Some (), sd12).
Proof.
  destruct (hook_keys_disjoint p1 p2 Hne)
    as (Haa & Hak & Hav & Haq & Hka & Hkk & Hkv & Hkq
        & Hva & Hvk & Hvv & Hvq & Hqa & Hqk & Hqv & Hqq).
  destruct (hook_keys_distinct p1) as (_ & _ & _ & Hf1 & Hf2 & Hf3).
  destruct (hook_keys_distinct p2) as (_ & _ & _ & Hg1 & Hg2 & Hg3).
  apply load_hook_ok in H1
    as [[Hn1 ->]|(wq1 & wk1 & wv1 & w1 & Hq1 & Hk1 & Hv1 & Hc1 & ->)];
  apply load_hook_ok in H2
    as [[Hn2 ->]|(wq2 & wk2 & wv2 & w2 & Hq2 & Hk2 & Hv2 & Hc2 & ->)].
  - exists sd. split; apply load_hook_ok; by left.
  - eexists. split.
    + apply load_hook_ok. right. by exists wq2, wk2, wv2, w2.
    + apply load_hook_ok. left. split; [|done].
      rewrite lookup_insert_ne by done. by rewrite !lookup_delete_ne.
  - rewrite lookup_insert_ne in Hn2 by done.
    rewrite !lookup_delete_ne in Hn2 by done.
    exists sd. split; apply load_hook_ok; [by left|].
    right. by exists wq1, wk1, wv1, w1.
  - rewrite lookup_insert_ne in Hq2, Hk2, Hv2 by done.
    rewrite !lookup_delete_ne in Hq2, Hk2, Hv2 by done.
    eexists. split.
    + apply load_hook_ok. right. by exists wq2, wk2, wv2, w2.
    + apply load_hook_ok. right. exists wq1, wk1, wv1, w1.
      split_and!; [| | |done|].
      * rewrite lookup_insert_ne by (by apply not_eq_sym).
        rewrite !lookup_delete_ne by (by apply not_eq_sym). done.
      * rewrite lookup_insert_ne by (by apply not_eq_sym).
        rewrite !lookup_delete_ne by (by apply not_eq_sym). done.
      * rewrite lookup_insert_ne by (by apply not_eq_sym).
        rewrite !lookup_delete_ne by (by apply not_eq_sym). done.
      * symmetry. by apply fuse_commute.
Qed.

End load_hook_facts.

Section load_hook_examples.
Import HookFixtures.

Lemma load_hook_fuses_witness :
  ∃ sd', load_hook rows_cat "layers.0.attention." checkpoint = (Some (), sd')
    ∧ sd' !! "layers.0.attention.wqkv.weight"
      = Some [[1; 2]; [3; 4]; [5; 6]; [7; 8]]
    ∧ sd' !! "layers.0.attention.wq.weight" = None
    ∧ sd' !! "layers.0.attention.wk.weight" = None
    ∧ sd' !! "layers.0.attention.wv.weight" = None
    ∧ ∀ key, key ≠ "layers.0.attention.wqkv.weight" →
        key ≠ "layers.0.attention.wq.weight" →
        key ≠ "layers.0.attention.wk.weight" →
        key ≠ "layers.0.attention.wv.weight" →
        sd' !! key = checkpoint !! key.
Proof.
  exact (load_hook_fuses rows_cat "layers.0.attention." checkpoint
           [[1; 2]; [3; 4]] [[5; 6]] [[7; 8]] [[1; 2]; [3; 4]; [5; 6]; [7; 8]]
           eq_refl eq_refl eq_refl eq_refl).
Defined.

Lemma load_hook_idempotent_witness :
  ∃ sd', load_hook rows_cat "layers.0.attention." checkpoint = (Some (), sd')
       ∧ load_hook rows_cat "layers.0.attention." sd' = (Some (), sd').
Proof.
  eexists. split; [reflexivity|].
  exact (load_hook_idempotent rows_cat "layers.0.attention." checkpoint _
           eq_refl).
Defined.

Lemma load_hook_commute_witness :
  "layers.0.attention." ≠ "layers.1.attention."
  ∧ ∃ sd1 sd12 sd2,
      load_hook rows_cat "layers.0.attention." checkpoint = (Some (), sd1)
      ∧ load_hook rows_cat "layers.1.attention." sd1 = (Some (), sd12)
      ∧ load_hook rows_cat "layers.1.attention." checkpoint = (Some (), sd2)
      ∧ load_hook rows_cat "layers.0.attention." sd2 = (Some (), sd12).
Proof.
  split; [discriminate|].
  destruct (load_hook_commute rows_cat "layers.0.attention."
              "layers.1.attention." checkpoint _ _
              ltac:(discriminate) eq_refl eq_refl) as (sd2 & Hb & Hab).
  eexists _, _, sd2. split_and!; [reflexivity|reflexivity|exact Hb|exact Hab].
Defined.

(** A checkpoint without the key projection: the hook raises, and the query
    projection is gone. *)
Example load_hook_broken :
  (load_hook rows_cat "layers.0.attention." broken).1 = None
  ∧ (load_hook rows_cat "layers.0.attention." broken).2
      !! "layers.0.attention.wq.weight" = None
  ∧ broken !! "layers.0.attention.wq.weight" = Some [[1; 2]; [3; 4]]
  ∧ (load_hook rows_cat "layers.0.attention." broken).2
      !! "layers.0.attention.wv.weight" = Some [[7; 8]].
Proof. split_and!; reflexivity. Qed.

End load_hook_examples.

(** ** [Transformer.setup_caches] *)

Section layer_kwargs_facts.

Implicit Types (kwargs lk : gmap string PyVal) (relevant : list string).

(** The comprehension, key by key. *)
Lemma layer_kwargs_run kwargs relevant (layer_idx : nat) :
  match layer_kwargs kwargs relevant layer_idx with
  | Some lk =>
      Forall (λ k, is_Some (kwarg_for kwargs layer_idx k)) relevant
      ∧ ∀ k, lk !! k = if decide (k ∈ relevant)
                       then kwarg_for kwargs layer_idx k else None
  | None => Exists (λ k, kwarg_for kwargs layer_idx k = None) relevant
  end.
Proof.
  unfold layer_kwargs.
  induction relevant as [|k0 relevant IH] using rev_ind.
  { cbn [foldl]. split; [constructor|]. intros k. rewrite decide_False; [done|].
    apply not_elem_of_nil. }
  rewrite foldl_app. cbn [foldl].
  destruct (foldl _ (Some ∅) relevant) as [acc|]; cbn [mbind option_bind].
  - destruct IH as [Hall Hacc].
    destruct (kwarg_for kwargs layer_idx k0) as [v|] eqn:Hk0;
      cbn [mbind option_bind].
    + split.
      * apply Forall_app. split; [done|]. by repeat constructor.
      * intros k. destruct (decide (k = k0)) as [->|Hne].
        -- rewrite lookup_insert_eq, decide_True; [done|].
           apply elem_of_app. right. by left.
        -- rewrite lookup_insert_ne by done. rewrite Hacc.
           destruct (decide (k ∈ relevant)) as [Hin|Hnin].
           ++ rewrite decide_True; [done|]. apply elem_of_app. by left.
           ++ rewrite decide_False; [done|].
              intros [?|?%list_elem_of_singleton]%elem_of_app; done.
    + apply Exists_app. right. by left.
  - apply Exists_app. by left.
Qed.

(** X15.  The keyword arguments of a layer are exactly the ones its cache
    declares relevant.  The three layerwise ones carry the layer's item of
    the list passed, every other one the value passed. *)
Theorem layer_kwargs_routes kwargs relevant (layer_idx : nat) lk
    (Hlk : layer_kwargs kwargs relevant layer_idx = Some lk) :
  (∀ k, is_Some (lk !! k) ↔ k ∈ relevant)
  ∧ (∀ k, k ∈ relevant → k ∈ layerwise_keys →
       ∃ v, kwargs !! k = Some v ∧ lk !! k = py_index v layer_idx)
  ∧ (∀ k, k ∈ relevant → k ∉ layerwise_keys → lk !! k = kwargs !! k).
Proof.
  pose proof (layer_kwargs_run kwargs relevant layer_idx) as Hrun.
  rewrite Hlk in Hrun. destruct Hrun as [Hall Hlook].
  rewrite Forall_forall in Hall. split_and!.
  - intros k. rewrite Hlook. destruct (decide (k ∈ relevant)) as [Hin|Hnin].
    + split; [done|]. intros _. by apply Hall.
    + split; [by intros [? ?]|done].
  - intros k Hin Hlw. rewrite Hlook, decide_True by done.
    destruct (Hall k Hin) as [v Hv]. unfold kwarg_for in *.
    destruct (kwargs !! k) as [w|]; [|done]. simpl in *.
    rewrite decide_True in Hv |- * by done. by exists w.
  - intros k Hin Hlw. rewrite Hlook, decide_True by done.
    destruct (Hall k Hin) as [v Hv]. unfold kwarg_for in *.
    destruct (kwargs !! k) as [w|]; [|done]. simpl in *.
    by rewrite decide_False.
Qed.

(** X16.  The comprehension raises exactly when a relevant argument was not
    passed, or a layerwise one has no item for the layer: a list that is too
    short, or a number. *)
Theorem layer_kwargs_raises kwargs relevant (layer_idx : nat) :
  layer_kwargs kwargs relevant layer_idx = None ↔
  ∃ k, k ∈ relevant
     ∧ (kwargs !! k = None
        ∨ (k ∈ layerwise_keys
           ∧ ∃ v, kwargs !! k = Some v ∧ py_index v layer_idx = None)).
Proof.
  pose proof (layer_kwargs_run kwargs relevant layer_idx) as Hrun.
  destruct (layer_kwargs kwargs relevant layer_idx) as [lk|].
  - destruct Hrun as [Hall _]. rewrite Forall_forall in Hall.
    split; [done|]. intros (k & Hin & Hbad).
    destruct (Hall k Hin) as [v Hv]. unfold kwarg_for in Hv.
    destruct Hbad as [Hnone|(Hlw & w & Hw & Hidx)].
    + by rewrite Hnone in Hv.
    + rewrite Hw in Hv. simpl in Hv. rewrite decide_True in Hv by done.
      congruence.
  - split; [intros _|done]. apply Exists_exists in Hrun as (k & Hin & Hk).
    exists k. split; [done|]. unfold kwarg_for in Hk.
    destruct (kwargs !! k) as [w|]; [|by left]. simpl in Hk.
    destruct (decide (k ∈ layerwise_keys)); [|done].
    right. split; [done|]. by exists w.
Qed.

End layer_kwargs_facts.

Lemma layer_kwargs_routes_witness :
  ∃ lk,
    layer_kwargs (delete "cache_strategy" SetupFixtures.kwargs2)
      ["max_cache_length"; "recent_window"; "global_tokens"] 1 = Some lk
    ∧ lk !! "max_cache_length" = Some (PInt 8)
    ∧ lk !! "recent_window" = Some (PInt 2)
    ∧ lk !! "global_tokens" = Some (PInt 1)
    ∧ (∀ k, is_Some (lk !! k)
            ↔ k ∈ ["max_cache_length"; "recent_window"; "global_tokens"]).
Proof.
  assert (layer_kwargs (delete "cache_strategy" SetupFixtures.kwargs2)
            ["max_cache_length"; "recent_window"; "global_tokens"] 1
          = Some (<["max_cache_length" := PInt 8]>
                    (<["recent_window" := PInt 2]>
                       (<["global_tokens" := PInt 1]> ∅)))) as Hlk
    by (vm_compute; reflexivity).
  eexists. split; [exact Hlk|]. split_and!; [reflexivity..|].
  exact (proj1 (layer_kwargs_routes _ _ _ _ Hlk)).
Defined.

(** A list with one item only, asked for layer 1; a number in the place of a
    list. *)
Example layer_kwargs_too_short :
  layer_kwargs (<["max_cache_length" := PList [PInt 4]]> ∅)
    ["max_cache_length"] 1 = None
  ∧ layer_kwargs (<["max_cache_length" := PInt 4]> ∅)
      ["max_cache_length"] 0 = None
  ∧ layer_kwargs (<["global_tokens" := PInt 4]> ∅) ["global_tokens"] 7
    = Some (<["global_tokens" := PInt 4]> ∅).
Proof. split_and!; reflexivity. Qed.

Section setup_caches_facts.
Context {C Ctor D : Type}.
Context (get_cache_constructor : PyVal → option (Ctor * list string))
        (cache_constructor :
           Ctor → Z → Z → Z → nat → D → gmap string PyVal → option C)
        (head_specific : C → bool)
        (get_prompt_compressor_constructor :
           PyVal → option (bool → gmap string PyVal → option compressor))
        (precompute_freqs_cis : Z → Z → Qc → D → list (list (list Qc))).

Local Abbreviation setup :=
  (setup_caches get_cache_constructor cache_constructor head_specific
     get_prompt_compressor_constructor precompute_freqs_cis).

(** X17.  A run of [setup_caches] that returns has given every layer a cache
    and a compressor, in the order of the layers.  The cache of layer [i] is
    built by the constructor of the [i]-th strategy, for batch size 1, the
    configuration's [n_local_heads] and [dim // n_head], from the layer's own
    arguments; [cache_strategy] and [head_specific] are never among them.
    The table of frequencies is computed for [block_size] positions and the
    same head dimension. *)
Theorem setup_caches_layers (config : ModelArgs.t) (n_layers : nat)
    (dtype : D) (kwargs : gmap string PyVal) layers freqs
    (Hrun : setup config n_layers dtype kwargs = Some (layers, freqs)) :
  length layers = n_layers
  ∧ ModelArgs.n_head config ≠ 0
  ∧ freqs = precompute_freqs_cis (ModelArgs.block_size config)
              (ModelArgs.dim config `div` ModelArgs.n_head config)
              (ModelArgs.rope_base config) dtype
  ∧ ∀ (i : nat) cache pc, layers !! i = Some (cache, pc) →
      ∃ strategies strategy ctor relevant lk,
        kwargs !! "cache_strategy" = Some strategies
        ∧ py_index strategies i = Some strategy
        ∧ get_cache_constructor strategy = Some (ctor, relevant)
        ∧ layer_kwargs (delete "cache_strategy" kwargs) relevant i = Some lk
        ∧ cache_constructor ctor 1 (ModelArgs.n_local_heads config)
            (ModelArgs.dim config `div` ModelArgs.n_head config) i dtype lk
          = Some cache
        ∧ lk !! "cache_strategy" = None
        ∧ lk !! "head_specific" = None.
Proof.
  unfold setup_caches in Hrun.
  destruct (kwargs !! "cache_strategy") as [strategies|] eqn:Hcs; [|done].
  cbn [mbind option_bind] in Hrun. unfold floordiv in Hrun.
  destruct (decide (ModelArgs.n_head config = 0)) as [|Hnh]; [done|].
  cbn [mbind option_bind] in Hrun.
  destruct (mapM _ (seq 0 n_layers)) as [ls|] eqn:Hmap; [|done].
  cbn [mbind option_bind] in Hrun. injection Hrun as <- <-.
  apply mapM_Some in Hmap.
  split_and!; [|done|done|].
  { apply Forall2_length in Hmap. by rewrite length_seq in Hmap. }
  intros i cache pc Hi.
  destruct (Forall2_lookup_r _ _ _ _ _ Hmap Hi) as (j & Hj & Hlayer).
  apply lookup_seq in Hj as [-> _]. cbn [Nat.add] in Hlayer.
  unfold setup_layer in Hlayer.
  apply bind_Some in Hlayer as (strategy & Hstrategy & Hlayer).
  apply bind_Some in Hlayer as ([ctor relevant] & Hctor & Hlayer).
  apply bind_Some in Hlayer as (lk & Hlk & Hlayer).
  apply bind_Some in Hlayer as (cache' & Hcache & Hlayer).
  apply bind_Some in Hlayer as (pcs & _ & Hlayer).
  apply bind_Some in Hlayer as (pcs' & _ & Hlayer).
  apply bind_Some in Hlayer as (make & _ & Hlayer).
  destruct (decide (is_Some (lk !! "head_specific"))) as [|Hhs]; [done|].
  apply bind_Some in Hlayer as (pc' & _ & Hlayer).
  injection Hlayer as -> ->.
  exists strategies, strategy, ctor, relevant, lk.
  split_and!; try done.
  - destruct (lk !! "cache_strategy") as [v|] eqn:Hv; [|done].
    exfalso.
    destruct (layer_kwargs_routes _ _ _ _ Hlk) as (Hdom & _ & Hglobal).
    assert ("cache_strategy" ∈ relevant) as Hin
      by (apply Hdom; by rewrite Hv).
    rewrite (Hglobal _ Hin), lookup_delete_eq in Hv; [done|].
    unfold layerwise_keys. intros Hx.
    repeat (apply elem_of_cons in Hx as [Hx|Hx]; [done|]).
    by apply elem_of_nil in Hx.
  - by apply eq_None_not_Some.
Qed.

(** X18.  [setup_caches] raises when [cache_strategy] is not among the
    arguments, when the configuration has no heads, when there is a layer and
    no [prompt_compression_strategy], or when the strategies given have no
    item for one of the layers. *)
Theorem setup_caches_raises (config : ModelArgs.t) (n_layers : nat)
    (dtype : D) (kwargs : gmap string PyVal)
    (Hbad : kwargs !! "cache_strategy" = None
            ∨ ModelArgs.n_head config = 0
            ∨ (0 < n_layers)%nat
              ∧ kwargs !! "prompt_compression_strategy" = None
            ∨ ∃ (i : nat) strategies,
                (i < n_layers)%nat
                ∧ kwargs !! "cache_strategy" = Some strategies
                ∧ py_index strategies i = None) :
  setup config n_layers dtype kwargs = None.
Proof.
  destruct (setup config n_layers dtype kwargs) as [[layers freqs]|] eqn:Hrun;
    [exfalso|done].
  unfold setup_caches in Hrun.
  destruct (kwargs !! "cache_strategy") as [strategies|] eqn:Hcs; [|done].
  cbn [mbind option_bind] in Hrun. unfold floordiv in Hrun.
  destruct (decide (ModelArgs.n_head config = 0)) as [|Hnh]; [done|].
  cbn [mbind option_bind] in Hrun.
  destruct (mapM _ (seq 0 n_layers)) as [ls|] eqn:Hmap; [|done].
  apply mapM_Some in Hmap.
  assert (∀ i : nat, (i < n_layers)%nat →
            is_Some (py_index strategies i)
            ∧ is_Some (kwargs !! "prompt_compression_strategy"))
    as Hlayers.
  { intros i Hi.
    assert (seq 0 n_layers !! i = Some i) as Hseq
      by (by apply lookup_seq).
    destruct (Forall2_lookup_l _ _ _ _ _ Hmap Hseq) as (y & _ & Hlayer).
    unfold setup_layer in Hlayer.
    apply bind_Some in Hlayer as (strategy & Hstrategy & Hlayer).
    apply bind_Some in Hlayer as (found & _ & Hlayer).
    apply bind_Some in Hlayer as (lk & _ & Hlayer).
    apply bind_Some in Hlayer as (cache' & _ & Hlayer).
    apply bind_Some in Hlayer as (pcs & Hpcs & _).
    rewrite lookup_delete_ne in Hpcs by done.
    by rewrite Hstrategy, Hpcs. }
  destruct Hbad as [?|[?|[[Hpos Hpcs]|(i & strategies' & Hi & Hs & Hidx)]]];
    try done.
  - destruct (Hlayers 0%nat Hpos) as [_ [? ?]]. congruence.
  - destruct (Hlayers i Hi) as [[? ?] _]. congruence.
Qed.

End setup_caches_facts.

Lemma setup_caches_layers_witness :
  ∃ layers freqs,
    SetupFixtures.setup2 = Some (layers, freqs)
    ∧ length layers = 2%nat
    ∧ length freqs = 8%nat.
Proof.
  destruct SetupFixtures.setup2 as [[layers freqs]|] eqn:Hrun;
    [|by vm_compute in Hrun].
  exists layers, freqs. split; [done|].
  destruct (setup_caches_layers _ _ _ _ _ _ _ _ _ _ _ Hrun)
    as (Hlen & _ & Hfreqs & _).
  split; [exact Hlen|]. rewrite Hfreqs. reflexivity.
Defined.

(** One strategy for two layers. *)
Lemma setup_caches_raises_witness :
  setup_caches SetupFixtures.get_cache_constructor
    SetupFixtures.cache_constructor SetupFixtures.head_specific
    SetupFixtures.get_prompt_compressor_constructor
    SetupFixtures.precompute_freqs_cis SetupFixtures.config2 2 ()
    (<["cache_strategy" := PList [PStr "full"]]> SetupFixtures.kwargs2)
  = None.
Proof.
  apply setup_caches_raises. right. right. right.
  exists 1%nat, (PList [PStr "full"]).
  split; [lia|]. split; reflexivity.
Defined.

(** ** [Attention.forward]: the groups of heads *)

Section attention_groups.
Context {C : Type} `{KVCache C} `{Numerics}.

Implicit Types (self : Attention.t) (c : C).

Lemma forward_negative_group self x input_ids freqs_cis mask
    (is_prefill : bool) input_pos top c :
  Attention.n_local_heads self ≠ 0 →
  Attention.n_head self `div` Attention.n_local_heads self < 0 →
  let qkv := project_qkv x freqs_cis in
  Attention.forward self x input_ids freqs_cis mask is_prefill input_pos top c
  = if is_prefill then (None, c, [])
    else (None, (update_kv input_pos qkv.1.2 qkv.2 false input_ids c).2,
          [EvUpdateKV input_pos qkv.1.2 qkv.2 false input_ids]).
Proof.
  intros Hz Hneg. cbv zeta. unfold Attention.forward. run_M.
  unfold floordiv. rewrite !(decide_False _ _ Hz). simpl.
  unfold repeat_interleave.
  destruct is_prefill; simpl; by rewrite !(decide_True _ _ Hneg).
Qed.

Lemma snoc_two {A} (l : list A) a b : l ++ [a; b] = (l ++ [a]) ++ [b].
Proof. by rewrite <-app_assoc. Qed.

Lemma groups_ok_dec self :
  Attention.groups_ok self
  ∨ Attention.n_local_heads self = 0
  ∨ Attention.n_local_heads self ≠ 0
    ∧ Attention.n_head self `div` Attention.n_local_heads self < 0.
Proof.
  unfold Attention.groups_ok.
  destruct (decide (Attention.n_local_heads self = 0)); [by auto|].
  destruct (decide
    (0 ≤ Attention.n_head self `div` Attention.n_local_heads self));
    [by auto|].
  right. right. split; [done|lia].
Qed.

(** X19.  A step on a module whose heads cannot be grouped (no key/value
    head, or a negative number of query heads per key/value head) raises.
    In prefill it raises before any call, and the cache is as it was.  In
    decode it raises after [update_kv]: the new entry has been taken in,
    the attention kernel and [update_state] are never reached. *)
Theorem forward_failure_effect self x input_ids freqs_cis mask
    (is_prefill : bool) input_pos top c
    (Hbad : ¬ Attention.groups_ok self) :
  let qkv := project_qkv x freqs_cis in
  Attention.forward self x input_ids freqs_cis mask is_prefill input_pos top c
  = if is_prefill then (None, c, [])
    else (None, (update_kv input_pos qkv.1.2 qkv.2 false input_ids c).2,
          [EvUpdateKV input_pos qkv.1.2 qkv.2 false input_ids]).
Proof.
  cbv zeta. destruct (groups_ok_dec self) as [Hok|[Hz|[Hz Hneg]]]; [done|..].
  - by apply forward_raises.
  - by apply forward_negative_group.
Qed.


(** X21.  With a positive number of key/value heads that divides the number
    of query heads, repeating by [n_head // n_local_heads] turns keys with
    [n_local_heads] heads into keys with [n_head] heads, and query head [h]
    meets key/value head [h // (n_head // n_local_heads)]: consecutive query
    heads share a key/value head. *)
Theorem group_expansion self {A} (t : list (list A)) b heads
    (Hlocal : 0 < Attention.n_local_heads self)
    (Hdiv : (Attention.n_local_heads self | Attention.n_head self))
    (Hhead : 0 < Attention.n_head self)
    (Hb : t !! b = Some heads)
    (Hlen : Z.of_nat (length heads) = Attention.n_local_heads self) :
  ∃ t' heads',
    repeat_interleave
      (Attention.n_head self `div` Attention.n_local_heads self) t = Some t'
    ∧ t' !! b = Some heads'
    ∧ Z.of_nat (length heads') = Attention.n_head self
    ∧ ∀ h, heads' !! h = heads !! (h `div` Attention.group self)%nat.
Proof.
  destruct Hdiv as [g Hg].
  assert (Attention.n_head self `div` Attention.n_local_heads self = g) as Hq
    by (rewrite Hg; apply Z.div_mul; lia).
  assert (0 < g) as Hgpos by nia.
  rewrite Hq, repeat_interleave_nonneg by lia.
  assert (Attention.group self = Z.to_nat g) as Hgroup
    by (unfold Attention.group; by rewrite Hq).
  rewrite Hgroup.
  destruct (expand_heads_lookup (Z.to_nat g) t b heads 0 ltac:(lia) Hb)
    as (heads' & Hb' & Hlen' & _).
  exists (expand_heads (Z.to_nat g) t), heads'. split_and!; [done|done|nia|].
  intros h.
  destruct (expand_heads_lookup (Z.to_nat g) t b heads h ltac:(lia) Hb)
    as (heads'' & Hb'' & _ & Hh).
  congruence.
Qed.

(** X22.  The attention of a prefill step does not read the cache: on two
    caches that agree on [return_attn()] the step returns the same output,
    and hands the kernel the same queries, keys, values and mask. *)
Theorem forward_prefill_ignores_cache self x input_ids freqs_cis mask
    input_pos top c c'
    (Hflag : return_attn c = return_attn c') :
  let r := Attention.forward self x input_ids freqs_cis mask true input_pos
             top c in
  let r' := Attention.forward self x input_ids freqs_cis mask true input_pos
              top c' in
  result r = result r'
  ∧ filter (λ e, is_attention e) (calls r)
    = filter (λ e, is_attention e) (calls r').
Proof.
  cbv zeta. destruct (groups_ok_dec self) as [Hok|Hbad].
  - rewrite !forward_prefill_run by done. unfold result, calls; cbn [fst snd].
    rewrite Hflag. split; [done|].
    rewrite !filter_cons_True by done. f_equal.
    do 2 case_bool_decide; done.
  - assert (¬ Attention.groups_ok self) as Hnot.
    { intros [Hz Hg]. destruct Hbad as [?|[_ ?]]; [done|lia]. }
    by rewrite !(forward_failure_effect _ _ _ _ _ true _ _ _ Hnot).
Qed.

End attention_groups.

Section attention_groups_examples.
Import Fixtures ForwardFixtures.
Local Existing Instance toy_numerics.

Lemma forward_failure_effect_witness :
  ¬ Attention.groups_ok headless_attention
  ∧ Attention.forward headless_attention x1 ids1 [] None false [0] 1%Qc
      store_full
    = (None, store_one,
       [EvUpdateKV [0] [[[row [1; 2]]]] [[[row [1; 2]]]] false ids1])
  ∧ Attention.forward headless_attention x3 ids3 [] None true [0; 1; 2] 1%Qc
      store_full
    = (None, store_full, []).
Proof.
  assert (¬ Attention.groups_ok headless_attention) as Hbad
    by (intros [Hz _]; by apply Hz).
  split; [exact Hbad|]. split.
  - exact (forward_failure_effect headless_attention x1 ids1 [] None false
             [0] 1%Qc store_full Hbad).
  - exact (forward_failure_effect headless_attention x3 ids3 [] None true
             [0; 1; 2] 1%Qc store_full Hbad).
Defined.

Lemma group_expansion_witness :
  ∃ t' heads',
    repeat_interleave 2 [["a"; "b"]] = Some t'
    ∧ t' !! 0%nat = Some heads'
    ∧ Z.of_nat (length heads') = 4
    ∧ ∀ h, heads' !! h = ["a"; "b"] !! (h `div` 2)%nat.
Proof.
  exact (group_expansion (Attention.mk 4 2 2 8 (recent_compressor 2))
           [["a"; "b"]] 0 ["a"; "b"] ltac:(reflexivity)
           ltac:(by exists 2) ltac:(reflexivity) eq_refl eq_refl).
Defined.

(** Three query heads on two key/value heads: the repetition is by 1, and
    the kernel is handed two heads of keys for three of queries. *)
Example group_expansion_uneven :
  repeat_interleave
    (Attention.n_head uneven_attention
     `div` Attention.n_local_heads uneven_attention) [["a"; "b"]]
  = Some [["a"; "b"]].
Proof. reflexivity. Qed.

Lemma forward_prefill_ignores_cache_witness :
  store_full ≠ store_one
  ∧ result (Attention.forward toy_attention x3 ids3 [] None true [0; 1; 2]
              1%Qc store_full)
    = result (Attention.forward toy_attention x3 ids3 [] None true [0; 1; 2]
                1%Qc store_one)
  ∧ filter (λ e, is_attention e)
      (calls (Attention.forward toy_attention x3 ids3 [] None true [0; 1; 2]
                1%Qc store_full))
    = filter (λ e, is_attention e)
        (calls (Attention.forward toy_attention x3 ids3 [] None true
                  [0; 1; 2] 1%Qc store_one)).
Proof.
  split.
  - intros Heq. apply (f_equal SlotStore.mask) in Heq. discriminate Heq.
  - exact (forward_prefill_ignores_cache toy_attention x3 ids3 [] None
             [0; 1; 2] 1%Qc store_full store_one eq_refl).
Defined.

End attention_groups_examples.

(** ** [TransformerBlock.forward] and [Transformer.forward] *)

Section transformer_forward_facts.
Context {C : Type} `{KVCache C}.
Context (add : acts → acts → acts)
        (tok_embeddings : token_ids → acts)
        (norm : acts → acts)
        (output : acts → acts)
        (index_freqs : list (list (list Qc)) → list Z → option tensor).

Implicit Types (b : Block) (c : C) (layers : list (Block * C)).

Local Abbreviation grouped := (λ bc : Block * C,
  Attention.groups_ok (attention bc.1)).

(** The block adds nothing to what its attention module does to the cache. *)
Lemma block_forward_run b x input_ids input_pos (is_prefill : bool) freqs_cis
    mask top c :
  block_forward add b x input_ids input_pos is_prefill freqs_cis mask top c
  = match @Attention.forward C _ (kernels b) (attention b)
            (attention_norm b x) input_ids freqs_cis mask is_prefill
            input_pos top c with
    | (Some a, c', t) =>
        (Some (add (add x a) (feed_forward b (ffn_norm b (add x a)))), c', t)
    | (None, c', t) => (None, c', t)
    end.
Proof.
  unfold block_forward, mbind, M_bind, mret, M_ret.
  destruct (Attention.forward _ _ _ _ _ _ _ _ _) as [[[a|] c'] t]; [|done].
  by rewrite app_nil_r.
Qed.

(** A block whose heads can be grouped: one call of each kind. *)
Lemma block_forward_calls b x input_ids input_pos (is_prefill : bool)
    freqs_cis mask top c :
  Attention.groups_ok (attention b) →
  ∃ y c' t,
    block_forward add b x input_ids input_pos is_prefill freqs_cis mask top c
    = (Some y, c', t)
    ∧ length (filter (λ e, is_update_kv e) t) = 1%nat
    ∧ length (filter (λ e, is_attention e) t) = 1%nat
    ∧ length (filter (λ e, is_update_state e) t) = 1%nat.
Proof.
  intros Hok. rewrite block_forward_run. destruct is_prefill.
  - rewrite (@forward_prefill_run C _ (kernels b)) by done.
    eexists _, _, _. split; [done|].
    split_and!; by case_bool_decide.
  - rewrite (@forward_decode_run C _ (kernels b)) by done.
    eexists _, _, _. split; [done|]. split_and!; done.
Qed.

(** A block whose heads cannot be grouped: the layer raises, after one
    [update_kv] in decode, before any call in prefill. *)
Lemma block_forward_raises b x input_ids input_pos (is_prefill : bool)
    freqs_cis mask top c :
  ¬ Attention.groups_ok (attention b) →
  ∃ c' t,
    block_forward add b x input_ids input_pos is_prefill freqs_cis mask top c
    = (None, c', t)
    ∧ (is_prefill = true → c' = c)
    ∧ length (filter (λ e, is_update_kv e) t)
      = (if is_prefill then 0 else 1)%nat
    ∧ filter (λ e, is_attention e) t = [].
Proof.
  intros Hbad. rewrite block_forward_run.
  rewrite (@forward_failure_effect C _ (kernels b)) by done.
  destruct is_prefill; eexists _, _; (split; [done|]); split_and!; done.
Qed.

Lemma run_layers_blocks layers : ∀ x input_ids input_pos (is_prefill : bool)
    freqs_cis mask top,
  (run_layers add layers x input_ids input_pos is_prefill freqs_cis mask
     top).1.2.*1 = layers.*1.
Proof.
  induction layers as [|[b c] layers IH];
    intros x input_ids input_pos is_prefill freqs_cis m top; [done|].
  cbn [run_layers].
  destruct (block_forward _ _ _ _ _ _ _ _ _ _) as [[[x'|] c'] t]; [|done].
  specialize (IH x' input_ids input_pos is_prefill freqs_cis m top).
  destruct (run_layers _ _ _ _ _ _ _ _ _) as [[r rest'] t'].
  cbn [fst snd fmap list_fmap] in *. by f_equal.
Qed.

Lemma run_layers_calls layers : ∀ x input_ids input_pos (is_prefill : bool)
    freqs_cis mask top,
  Forall grouped layers →
  ∃ y layers' t,
    run_layers add layers x input_ids input_pos is_prefill freqs_cis mask top
    = (Some y, layers', t)
    ∧ length (filter (λ e, is_update_kv e) t) = length layers
    ∧ length (filter (λ e, is_attention e) t) = length layers
    ∧ length (filter (λ e, is_update_state e) t) = length layers.
Proof.
  induction layers as [|[b c] layers IH]; intros x input_ids input_pos
    is_prefill freqs_cis mask top Hall.
  { by eexists _, _, _. }
  apply Forall_cons in Hall as [Hb Hall]. cbn [run_layers].
  destruct (block_forward_calls b x input_ids input_pos is_prefill freqs_cis
              mask top c Hb) as (y & c' & t & -> & Hk & Ha & Hs).
  destruct (IH y input_ids input_pos is_prefill freqs_cis mask top Hall)
    as (z & layers' & t' & -> & Hk' & Ha' & Hs').
  eexists _, _, _. split; [done|].
  rewrite !filter_app, !length_app. cbn [length]. lia.
Qed.

(** The loop stops at the first block whose heads cannot be grouped. *)
Lemma run_layers_stops pre : ∀ b c post x input_ids input_pos
    (is_prefill : bool) freqs_cis mask top,
  Forall grouped pre → ¬ Attention.groups_ok (attention b) →
  ∃ pre' c' t,
    run_layers add (pre ++ (b, c) :: post) x input_ids input_pos is_prefill
      freqs_cis mask top
    = (None, pre' ++ (b, c') :: post, t)
    ∧ length pre' = length pre
    ∧ (is_prefill = true → c' = c)
    ∧ length (filter (λ e, is_update_kv e) t)
      = (length pre + if is_prefill then 0 else 1)%nat
    ∧ length (filter (λ e, is_attention e) t) = length pre.
Proof.
  induction pre as [|[b0 c0] pre IH]; intros b c post x input_ids input_pos
    is_prefill freqs_cis mask top Hall Hbad.
  - cbn [app run_layers].
    destruct (block_forward_raises b x input_ids input_pos is_prefill
                freqs_cis mask top c Hbad) as (c' & t & -> & Hc & Hk & Ha).
    exists [], c', t. split_and!; [done|done|done|done|by rewrite Ha].
  - apply Forall_cons in Hall as [Hb0 Hall].
    rewrite <-app_comm_cons. cbn [run_layers].
    destruct (block_forward_calls b0 x input_ids input_pos is_prefill
                freqs_cis mask top c0 Hb0) as (y & c0' & t0 & -> & Hk & Ha & _).
    destruct (IH b c post y input_ids input_pos is_prefill freqs_cis mask top
                Hall Hbad) as (pre' & c' & t & -> & Hlen & Hc & Hk' & Ha').
    exists ((b0, c0') :: pre'), c', (t0 ++ t).
    split_and!; [done|by cbn [length]; f_equal|done|..].
    + rewrite filter_app, length_app. cbn [length]. lia.
    + rewrite filter_app, length_app. cbn [length]. lia.
Qed.

Lemma grouped_split layers :
  Forall grouped layers
  ∨ ∃ pre b c post,
      layers = pre ++ (b, c) :: post
      ∧ Forall grouped pre ∧ ¬ Attention.groups_ok (attention b).
Proof.
  induction layers as [|[b c] layers IH]; [by left|].
  destruct (groups_ok_dec (attention b)) as [Hok|Hbad].
  - destruct IH as [Hall|(pre & b' & c' & post & -> & Hpre & Hbad)].
    + left. by constructor.
    + right. exists ((b, c) :: pre), b', c', post.
      split_and!; [done|by constructor|done].
  - right. exists [], b, c, layers. split_and!; [done|constructor|].
    intros [Hz Hg]. destruct Hbad as [?|[_ ?]]; [done|lia].
Qed.



End transformer_forward_facts.

Section transformer_forward_examples.
Import Fixtures ForwardFixtures.

Local Abbreviation grouped := (λ bc : Block * SlotStore.t,
  Attention.groups_ok (attention bc.1)).

Lemma toy_grouped : Attention.groups_ok toy_attention.
Proof. split; [discriminate|by vm_compute]. Qed.

Lemma headless_not_grouped : ¬ Attention.groups_ok headless_attention.
Proof. intros [Hz _]. by apply Hz. Qed.



End transformer_forward_examples.

(** ** The queries of [Transformer], once more *)

Section query_facts.
Context {C : Type} `{KVCache C}.

Implicit Types (layers : list C).

(** X25.  [min_cache_length] raises on a model without layers, and only
    then; otherwise it returns a capacity that some layer has and that no
    layer goes below. *)
Theorem min_cache_length_spec layers :
  match (min_cache_length layers).1 with
  | None => layers = []
  | Some m =>
      (∀ layer, layer ∈ layers → m ≤ max_cache_length layer)
      ∧ ∃ layer, layer ∈ layers ∧ m = max_cache_length layer
  end.
Proof.
  destruct layers as [|c cs]; [done|].
  destruct (min_cache_length_least (c :: cs) c ltac:(by left))
    as (m & Hm & _ & Hwit).
  rewrite Hm. split; [|done].
  intros layer Hin.
  destruct (min_cache_length_least (c :: cs) layer Hin) as (m' & Hm' & Hle & _).
  congruence.
Qed.

(** X26.  The two capacity queries agree: some layer overflows on a prompt
    exactly when the prompt is longer than [min_cache_length], and all
    layers overflow exactly when it is longer than every capacity. *)
Theorem overflow_min_cache_length (prompt_length : Z) layers m
    (Hm : (min_cache_length layers).1 = Some m) :
  (true ∈ (prompt_cache_overflow prompt_length layers).1
   ↔ m < prompt_length)
  ∧ (false ∈ (prompt_cache_overflow prompt_length layers).1
     ↔ ∃ layer, layer ∈ layers ∧ prompt_length ≤ max_cache_length layer).
Proof.
  pose proof (min_cache_length_spec layers) as Hspec. rewrite Hm in Hspec.
  destruct Hspec as [Hle (least & Hin & ->)].
  unfold prompt_cache_overflow; cbn [fst]. split.
  - rewrite list_elem_of_fmap. split.
    + intros (layer & Hb & Hl). symmetry in Hb.
      apply bool_decide_eq_true in Hb. specialize (Hle layer Hl). lia.
    + intros Hlt. exists least. split; [|done]. symmetry.
      apply bool_decide_eq_true. lia.
  - rewrite list_elem_of_fmap. split.
    + intros (layer & Hb & Hl). symmetry in Hb.
      apply bool_decide_eq_false in Hb. exists layer. split; [done|lia].
    + intros (layer & Hl & Hge). exists layer. split; [|done]. symmetry.
      apply bool_decide_eq_false. lia.
Qed.

Lemma memory_reported_dec (n : Z) layers :
  Forall (λ layer, is_Some (layer_statistics n layer !! "cache_memory_gb"))
    layers
  ∨ Exists (λ layer, layer_statistics n layer !! "cache_memory_gb" = None)
      layers.
Proof.
  induction layers as [|layer layers IH]; [by left|].
  destruct (layer_statistics n layer !! "cache_memory_gb") as [v|] eqn:Hv.
  - destruct IH as [Hall|Hex].
    + left. constructor; [by rewrite Hv|done].
    + right. by apply Exists_cons_tl.
  - right. by apply Exists_cons_hd.
Qed.

(** X27.  [get_cache_stats] raises exactly when some layer's statistics
    come without ["cache_memory_gb"]; in particular it returns on a model
    without layers. *)
Theorem get_cache_stats_raises_iff prompt_len gen_len layers :
  (get_cache_stats prompt_len gen_len layers).1 = None
  ↔ Exists (λ layer,
       layer_statistics (prompt_len + gen_len) layer !! "cache_memory_gb"
       = None) layers.
Proof.
  split.
  - intros Hnone.
    destruct (memory_reported_dec (prompt_len + gen_len) layers)
      as [Hall|Hex]; [|done].
    destruct (get_cache_stats_run prompt_len gen_len layers Hall)
      as (st & Hst & _). congruence.
  - intros Hex. unfold get_cache_stats; cbn [fst].
    by rewrite stats_loop_raises.
Qed.

(** X28.  The dictionary [get_cache_stats] returns has the total under
    ["cache_memory_gb"], an entry [k_j] exactly for the statistics [k] that
    layer [j] reports beside its memory, an entry [k_avg] exactly for the
    statistics that some layer reports beside its memory, and nothing
    else. *)
Theorem get_cache_stats_keys prompt_len gen_len layers st
    (Hst : (get_cache_stats prompt_len gen_len layers).1 = Some st) :
  let n := prompt_len + gen_len in
  is_Some (st !! "cache_memory_gb")
  ∧ (∀ k j, is_Some (st !! layer_key k j)
            ↔ k ≠ "cache_memory_gb"
              ∧ ∃ layer, layers !! j = Some layer
                         ∧ is_Some (layer_statistics n layer !! k))
  ∧ (∀ k, is_Some (st !! avg_key k)
          ↔ k ≠ "cache_memory_gb"
            ∧ ∃ layer, layer ∈ layers
                       ∧ is_Some (layer_statistics n layer !! k))
  ∧ (∀ key, key ≠ "cache_memory_gb" → (∀ k j, key ≠ layer_key k j) →
            (∀ k, key ≠ avg_key k) → st !! key = None).
Proof.
  cbv zeta.
  destruct (memory_reported_dec (prompt_len + gen_len) layers) as [Hall|Hex].
  2:{ apply get_cache_stats_raises_iff in Hex. congruence. }
  destruct (get_cache_stats_run prompt_len gen_len layers Hall)
    as (st' & Hst' & Hm & Hl & Ha & Ho).
  assert (st' = st) as -> by congruence.
  assert (∀ k layer,
            is_Some (reported (prompt_len + gen_len) layer !! k)
            ↔ k ≠ "cache_memory_gb"
              ∧ is_Some (layer_statistics (prompt_len + gen_len) layer !! k))
    as Hrep.
  { intros k layer. destruct (decide (k = "cache_memory_gb")) as [->|Hk].
    - unfold reported. rewrite lookup_delete_eq.
      split; [by intros [? ?]|by intros [? _]].
    - rewrite reported_lookup by done. split; [done|by intros [_ ?]]. }
  split_and!.
  - by rewrite Hm.
  - intros k j. rewrite Hl. destruct (layers !! j) as [layer|]; cbn.
    + rewrite Hrep. split.
      * intros [Hk Hs]. split; [done|]. by exists layer.
      * intros [Hk (layer' & [= <-] & Hs)]. done.
    + split; [by intros [? ?]|]. by intros [_ (? & ? & _)].
  - intros k. rewrite Ha.
    assert (column (prompt_len + gen_len) layers k ≠ []
            ↔ ∃ layer, layer ∈ layers
                ∧ is_Some (reported (prompt_len + gen_len) layer !! k))
      as Hcol.
    { clear. induction layers as [|layer layers IH].
      - split; [done|]. by intros (? & ?%elem_of_nil & _).
      - rewrite column_cons.
        destruct (reported _ layer !! k) as [v|] eqn:Hv.
        + split; [intros _|done]. exists layer. split; [by left|].
          by rewrite Hv.
        + rewrite IH. split.
          * intros (l & Hin & Hs). exists l. split; [by right|done].
          * intros (l & [->|Hin]%elem_of_cons & Hs).
            -- rewrite Hv in Hs. by destruct Hs.
            -- by exists l. }
    destruct (column _ layers k) as [|v vs] eqn:Hc.
    + split; [by intros [? ?]|]. intros [Hk (layer & Hin & Hs)].
      exfalso. apply (proj2 Hcol); [|done].
      exists layer. split; [done|]. by apply Hrep.
    + split; [intros _|done].
      destruct (proj1 Hcol ltac:(done)) as (layer & Hin & Hs).
      apply Hrep in Hs as [Hk Hs]. split; [done|]. by exists layer.
  - done.
Qed.

End query_facts.

Section query_examples.
Import Fixtures.

Lemma overflow_min_cache_length_witness :
  (min_cache_length model2).1 = Some 2
  ∧ (true ∈ (prompt_cache_overflow 3 model2).1 ↔ 2 < 3)
  ∧ (false ∈ (prompt_cache_overflow 3 model2).1
     ↔ ∃ layer, layer ∈ model2 ∧ 3 ≤ max_cache_length layer).
Proof.
  split; [reflexivity|].
  exact (overflow_min_cache_length 3 model2 2 eq_refl).
Defined.

Lemma get_cache_stats_keys_witness :
  ∃ st,
    (get_cache_stats 3 1 model2).1 = Some st
    ∧ is_Some (st !! "cache_memory_gb")
    ∧ (is_Some (st !! layer_key "occupancy" 1)
       ↔ "occupancy" ≠ "cache_memory_gb"
         ∧ ∃ layer, model2 !! 1%nat = Some layer
                    ∧ is_Some (layer_statistics (3 + 1) layer !! "occupancy"))
    ∧ st !! "occupancy" = None.
Proof.
  destruct (get_cache_stats_run 3 1 model2 (slot_memory_reported _ _))
    as (st & Hst & _).
  exists st. split; [exact Hst|].
  destruct (get_cache_stats_keys 3 1 model2 st Hst) as (Hm & Hl & _ & Ho).
  split_and!; [exact Hm|exact (Hl "occupancy" 1%nat)|].
  apply Ho; [done|..].
  - intros k j Heq. apply (f_equal chars) in Heq. unfold layer_key in Heq.
    rewrite !chars_app in Heq.
    assert (last (chars "occupancy") = Some "y"%char) as Hlast by done.
    rewrite Heq in Hlast. rewrite app_assoc, last_app in Hlast.
    destruct (chars_pretty_nat j) as (d & ch & Hd & _ & Hc).
    rewrite Hd, last_snoc in Hlast. injection Hlast as ->.
    unfold digit in Hc. vm_compute in Hc.
    repeat (apply elem_of_cons in Hc as [Hc|Hc]; [discriminate Hc|]).
    by apply elem_of_nil in Hc.
  - intros k Heq. apply (f_equal chars) in Heq. unfold avg_key in Heq.
    rewrite chars_app in Heq.
    apply (f_equal last) in Heq. by rewrite last_app in Heq.
Defined.

End query_examples.
